(** * The chamber simulation of [program.py]

    A shallow embedding of the admission scheduler ([ChamberState], [visitor],
    [run_from_file]) and of the input parser ([read_meeting_info]).

    Python integers are [Z], strings are [string], the deque [entry_order] is a
    list with its front at the head, the three-key dict [waiting] is a record
    with one field per key.  Threads are modelled by an interleaving semantics
    whose atomic steps are the critical sections guarded by [chamber.lock]. *)

From Stdlib Require Import ZArith List Bool String Ascii Lia Permutation QArith_base.
Import ListNotations.
Local Open Scope string_scope.
Local Open Scope list_scope.
Local Open Scope Z_scope.

(** ** Data model *)

(** The visitor type: the one-letter strings ['S'], ['A'], ['O']. *)
Inductive vtype : Type := Student | Admin | Online.

Definition vtype_eqb (a b : vtype) : bool :=
  match a, b with
  | Student, Student | Admin, Admin | Online, Online => true
  | _, _ => false
  end.

(** [vtype in ('S','A')], the test at the top of [visitor]. *)
Definition is_batch (v : vtype) : bool :=
  match v with Student | Admin => true | Online => false end.

(** An element of [entry_order]: the tuple [(index, name, vtype)]. *)
Definition Entry : Type := (Z * string * vtype)%type.

Definition entry_index (e : Entry) : Z := fst (fst e).
Definition entry_name (e : Entry) : string := snd (fst e).
Definition entry_vtype (e : Entry) : vtype := snd e.

(** The dict [waiting = {'S': 0, 'A': 0, 'O': 0}]; its key set never changes. *)
Record Waiting : Type := mkWaiting { wS : Z; wA : Z; wO : Z }.

Definition waiting_get (w : Waiting) (t : vtype) : Z :=
  match t with Student => wS w | Admin => wA w | Online => wO w end.

Definition waiting_set (w : Waiting) (t : vtype) (n : Z) : Waiting :=
  match t with
  | Student => mkWaiting n (wA w) (wO w)
  | Admin => mkWaiting (wS w) n (wO w)
  | Online => mkWaiting (wS w) (wA w) n
  end.

(** The fields of [ChamberState] that the scheduler reads and writes. *)
Record ChamberState : Type := mkChamber {
  K : Z;
  current_type : option vtype;
  count : Z;
  waiting : Waiting;
  entry_order : list Entry
}.

(** [ChamberState.__init__]. *)
Definition new_chamber (k : Z) : ChamberState :=
  mkChamber k None 0 (mkWaiting 0 0 0) [].

(** ** [remove_from_queue_by_index] *)

(** The [enumerate] loop: position of the first entry whose index is [index]. *)
Fixpoint find_position (i : nat) (q : list Entry) (index : Z) : option nat :=
  match q with
  | [] => None
  | (idx, _, _) :: rest =>
      if idx =? index then Some i else find_position (S i) rest index
  end.

(** [del self.entry_order[i]] for a position inside the deque. *)
Fixpoint del_at (i : nat) (q : list Entry) : list Entry :=
  match q with
  | [] => []
  | x :: rest => match i with O => rest | S j => x :: del_at j rest end
  end.

Definition remove_from_queue_by_index (q : list Entry) (index : Z)
  : bool * list Entry :=
  match find_position 0 q index with
  | Some i => (true, del_at i q)
  | None => (false, q)
  end.

(** ** The admission test and the state updates of [visitor] *)

(** The log lines, by their payload. *)
Inductive Event : Type :=
| ARRIVED (name : string) (v : vtype)
| ENTERED (name : string) (v : vtype) (cnt : Z)
| STARTED (name : string)
| LEFT (name : string) (v : vtype) (cnt : Z)
| ENDED (name : string)
| FINISHED.

(** Registration, under [chamber.lock]. *)
Definition register (c : ChamberState) (name : string) (v : vtype) (index : Z)
  : ChamberState * Event :=
  (mkChamber (K c) (current_type c) (count c)
     (waiting_set (waiting c) v (waiting_get (waiting c) v + 1))
     (entry_order c ++ [(index, name, v)]),
   ARRIVED name v).

(** The value of [can_enter] after one evaluation of the loop body, in the
    batch branch and in the online branch. *)
Definition can_enter (c : ChamberState) (v : vtype) : bool :=
  if is_batch v then
    match current_type c with
    | None =>
        match entry_order c with
        | (_, _, front_type) :: _ => vtype_eqb front_type v
        | [] => false
        end
    | Some cur => vtype_eqb cur v && (count c <? K c)
    end
  else
    match current_type c with
    | None =>
        match entry_order c with
        | (_, _, front_type) :: _ => vtype_eqb front_type Online
        | [] => false
        end
    | Some _ => false
    end.

(** The [if can_enter:] block. *)
Definition enter (c : ChamberState) (name : string) (v : vtype) (index : Z)
  : ChamberState * Event :=
  let q := snd (remove_from_queue_by_index (entry_order c) index) in
  if is_batch v then
    let cnt := count c + 1 in
    (mkChamber (K c) (Some v) cnt
       (waiting_set (waiting c) v (waiting_get (waiting c) v - 1)) q,
     ENTERED name v cnt)
  else
    (mkChamber (K c) (Some Online) 1
       (waiting_set (waiting c) Online (waiting_get (waiting c) Online - 1)) q,
     STARTED name).

(** The record a visitor appended when it registered. *)
Definition own_record (name : string) (v : vtype) (index : Z) : Entry :=
  (index, name, v).

(** "This visitor's own record is the front of the ledger." *)
Definition own_record_is_front (c : ChamberState) (name : string) (v : vtype)
  (index : Z) : Prop :=
  exists rest, entry_order c = own_record name v index :: rest.

(** "The front entry of the ledger has kind [v]." *)
Definition front_has_type (c : ChamberState) (v : vtype) : Prop :=
  exists idx name rest, entry_order c = (idx, name, v) :: rest.

(** ** Threads, the lock and the condition variables *)

(** Where a visitor thread stands between two atomic steps. *)
Inductive Pc : Type :=
| AtRegister                    (* before [with chamber.lock:] of the registration *)
| AtEntry                       (* before [with cond:] *)
| Waiting_                      (* inside [cond.wait()], not notified *)
| Notified                      (* inside [cond.wait()], notified, re-acquiring the lock *)
| InSession                     (* inside [time.sleep], holding a place in the chamber *)
| BlockedOnNotify (t : vtype)   (* at [with chamber.cond[t]:] while holding [chamber.lock] *)
| Crashed                       (* ended by an uncaught exception *)
| Done.

(** A visitor thread: the arguments of [visitor] and its position. *)
Record Thread : Type := mkThread {
  tname : string;
  tvtype : vtype;
  tindex : Z;
  tpc : Pc
}.

Definition set_pc (th : Thread) (p : Pc) : Thread :=
  mkThread (tname th) (tvtype th) (tindex th) p.

Definition thread_record (th : Thread) : Entry :=
  own_record (tname th) (tvtype th) (tindex th).

Definition is_waiting (p : Pc) : bool :=
  match p with Waiting_ => true | _ => false end.

Definition in_session (p : Pc) : bool :=
  match p with InSession => true | _ => false end.

(** Registered and not yet admitted. *)
Definition queued (p : Pc) : bool :=
  match p with AtEntry | Waiting_ | Notified => true | _ => false end.

Definition terminated (p : Pc) : bool :=
  match p with Done | Crashed => true | _ => false end.

Fixpoint update_nth {X : Type} (n : nat) (x : X) (l : list X) : list X :=
  match l with
  | [] => []
  | y :: r => match n with O => x :: r | S m => y :: update_nth m x r end
  end.

(** [chamber.cond[t].notify_all()]: every thread waiting on [cond[t]] is woken.
    A visitor of type [v] waits on [chamber.cond[v]]. *)
Definition notify_all (t : vtype) (ths : list Thread) : list Thread :=
  map (fun th =>
         if vtype_eqb (tvtype th) t && is_waiting (tpc th)
         then set_pc th Notified else th) ths.

(** Outcome of the loop [for t in ('O','S','A')] of a departure. *)
Inductive NotifyResult : Type :=
| NotifyDone (owner : option nat) (ths : list Thread)
| NotifyBlocked (t : vtype).

Definition notify_order : list vtype := [Online; Student; Admin].

(** The loop body is [if chamber.waiting[t] > 0: with chamber.cond[t]: ...].
    Every [cond[t]] was built as [threading.Condition(self.lock)] over the one
    [threading.Lock()], which is not re-entrant: entering [with chamber.cond[t]]
    acquires [chamber.lock] and blocks for as long as the lock has an owner,
    whoever the owner is.  [owner] is the lock's owner when the loop gets to
    [t].  When the lock is free the block acquires it, notifies and releases
    it again. *)
Fixpoint notify_waiting_types (ts : list vtype) (w : Waiting)
  (owner : option nat) (ths : list Thread) : NotifyResult :=
  match ts with
  | [] => NotifyDone owner ths
  | t :: ts' =>
      if 0 <? waiting_get w t then
        match owner with
        | Some _ => NotifyBlocked t
        | None => notify_waiting_types ts' w None (notify_all t ths)
        end
      else notify_waiting_types ts' w owner ths
  end.

(** The final [with chamber.lock:] of [visitor] up to the notification loop:
    the new chamber, the line logged, and whether the loop is reached. *)
Definition leave (c : ChamberState) (name : string) (v : vtype)
  : ChamberState * Event * bool :=
  if is_batch v then
    let cnt := count c - 1 in
    let ev := LEFT name v cnt in
    if cnt =? 0 then
      (mkChamber (K c) None cnt (waiting c) (entry_order c), ev, true)
    else
      (mkChamber (K c) (current_type c) cnt (waiting c) (entry_order c), ev, false)
  else
    (mkChamber (K c) None 0 (waiting c) (entry_order c), ENDED name, true).

(** The whole block, entered by thread [me], which owns the lock from its
    first line on: the new chamber, the line logged, and how the block ended. *)
Definition depart (c : ChamberState) (name : string) (v : vtype) (me : nat)
  (ths : list Thread) : ChamberState * Event * NotifyResult :=
  let '(c', ev, loop) := leave c name v in
  (c', ev,
   if loop then notify_waiting_types notify_order (waiting c') (Some me) ths
   else NotifyDone (Some me) ths).

(** ** The whole program as a transition system *)

(** An item of the list returned by [read_meeting_info]. *)
Definition Item : Type := (string * vtype * Q)%type.

(** The state of a run: the chamber, the owner of [chamber.lock], the visitor
    threads started so far (thread [n] was started with [idx = n + 1]), the
    items the main thread has still to start, the lines logged so far, and
    whether the main thread has logged the end of the simulation. *)
Record Sys : Type := mkSys {
  chamber : ChamberState;
  lock : option nat;
  threads : list Thread;
  pending : list Item;
  log : list Event;
  finished : bool
}.

(** The state of [run_from_file] when its first loop starts. *)
Definition init (k : Z) (seq : list Item) : Sys :=
  mkSys (new_chamber k) None [] seq [] false.

(** What the scheduler may pick next: the main thread starts the next visitor,
    visitor thread [tid] runs up to its next blocking point, or the main thread
    returns from its last [join] and logs the end. *)
Inductive Action : Type :=
| Spawn
| Run (tid : nat)
| Finish.

(** One pass through the body of [while True:], with the lock held: either
    the visitor is admitted, or it calls [cond.wait()] and gives the lock back. *)
Definition entry_attempt (c : ChamberState) (th : Thread)
  : ChamberState * list Event * Pc :=
  if can_enter c (tvtype th) then
    let '(c', ev) := enter c (tname th) (tvtype th) (tindex th) in
    (c', [ev], InSession)
  else (c, [], Waiting_).

(** "The entry loop admits the visitor": the pass ends inside the chamber. *)
Definition enters (c : ChamberState) (th : Thread) : Prop :=
  snd (entry_attempt c th) = InSession.

(** The next atomic step of a visitor thread.  Every step starts by acquiring
    [chamber.lock], so none is possible while the lock has an owner.  A thread
    inside [cond.wait()] has no step until it is notified.  A thread at
    [BlockedOnNotify] is the owner of the lock it waits for (see
    [lock_owner_is_blocked]) and has no step either. *)
Definition run_thread (s : Sys) (tid : nat) (th : Thread) : option Sys :=
  match lock s with
  | Some _ => None
  | None =>
      match tpc th with
      | AtRegister =>
          let '(c', ev) := register (chamber s) (tname th) (tvtype th) (tindex th) in
          Some (mkSys c' None (update_nth tid (set_pc th AtEntry) (threads s))
                  (pending s) (log s ++ [ev]) (finished s))
      | AtEntry | Notified =>
          let '(c', evs, p) := entry_attempt (chamber s) th in
          Some (mkSys c' None (update_nth tid (set_pc th p) (threads s))
                  (pending s) (log s ++ evs) (finished s))
      | InSession =>
          let '(c', ev, r) :=
            depart (chamber s) (tname th) (tvtype th) tid (threads s) in
          match r with
          | NotifyDone (Some _) ths =>
              Some (mkSys c' None (update_nth tid (set_pc th Done) ths)
                      (pending s) (log s ++ [ev]) (finished s))
          | NotifyDone None ths =>
              (* leaving [with chamber.lock:] releases a lock that is not
                 held: RuntimeError *)
              Some (mkSys c' None (update_nth tid (set_pc th Crashed) ths)
                      (pending s) (log s ++ [ev]) (finished s))
          | NotifyBlocked t =>
              Some (mkSys c' (Some tid)
                      (update_nth tid (set_pc th (BlockedOnNotify t)) (threads s))
                      (pending s) (log s ++ [ev]) (finished s))
          end
      | Waiting_ | BlockedOnNotify _ | Crashed | Done => None
      end
  end.

Definition exec (s : Sys) (a : Action) : option Sys :=
  match a with
  | Spawn =>
      match pending s with
      | [] => None
      | (name, v, _) :: rest =>
          let idx := Z.of_nat (List.length (threads s)) + 1 in
          Some (mkSys (chamber s) (lock s)
                  (threads s ++ [mkThread name v idx AtRegister])
                  rest (log s) (finished s))
      end
  | Run tid =>
      match nth_error (threads s) tid with
      | Some th => run_thread s tid th
      | None => None
      end
  | Finish =>
      match pending s with
      | [] =>
          if forallb (fun th => terminated (tpc th)) (threads s)
             && negb (finished s)
          then Some (mkSys (chamber s) (lock s) (threads s) [] (log s ++ [FINISHED]) true)
          else None
      | _ :: _ => None
      end
  end.

(** A schedule, run from a state. *)
Fixpoint run (s : Sys) (tr : list Action) : option Sys :=
  match tr with
  | [] => Some s
  | a :: tr' => match exec s a with Some s' => run s' tr' | None => None end
  end.

(** No action is enabled. *)
Definition stuck (s : Sys) : Prop := forall a, exec s a = None.

(** ** Counting log lines *)

Definition is_arrived (e : Event) : bool :=
  match e with ARRIVED _ _ => true | _ => false end.
Definition is_entered_or_started (e : Event) : bool :=
  match e with ENTERED _ _ _ | STARTED _ => true | _ => false end.
Definition is_left_or_ended (e : Event) : bool :=
  match e with LEFT _ _ _ | ENDED _ => true | _ => false end.

Definition count_events (p : Event -> bool) (l : list Event) : nat :=
  List.length (filter p l).

(** Number of entries of [entry_order] with a given type. *)
Definition count_type (t : vtype) (q : list Entry) : Z :=
  Z.of_nat (List.length (filter (fun e => vtype_eqb (entry_vtype e) t) q)).

(** Number of threads inside the chamber. *)
Definition occupants (ths : list Thread) : Z :=
  Z.of_nat (List.length (filter (fun th => in_session (tpc th)) ths)).

(** ** The steps, one constructor per kind of step

    [Step s a s'] lists what [exec s a = Some s'] can be; the invariants are
    proved by cases on it. *)
Inductive Step : Sys -> Action -> Sys -> Prop :=
| StepSpawn c lk ths name v d rest lg f :
    Step (mkSys c lk ths ((name, v, d) :: rest) lg f) Spawn
         (mkSys c lk
            (ths ++ [mkThread name v (Z.of_nat (List.length ths) + 1) AtRegister])
            rest lg f)
| StepRegister c l1 th l2 pd lg f c' ev :
    tpc th = AtRegister ->
    register c (tname th) (tvtype th) (tindex th) = (c', ev) ->
    Step (mkSys c None (l1 ++ th :: l2) pd lg f) (Run (List.length l1))
         (mkSys c' None (l1 ++ set_pc th AtEntry :: l2) pd (lg ++ [ev]) f)
| StepWait c l1 th l2 pd lg f :
    tpc th = AtEntry \/ tpc th = Notified ->
    can_enter c (tvtype th) = false ->
    Step (mkSys c None (l1 ++ th :: l2) pd lg f) (Run (List.length l1))
         (mkSys c None (l1 ++ set_pc th Waiting_ :: l2) pd lg f)
| StepEnter c l1 th l2 pd lg f c' ev :
    tpc th = AtEntry \/ tpc th = Notified ->
    can_enter c (tvtype th) = true ->
    enter c (tname th) (tvtype th) (tindex th) = (c', ev) ->
    Step (mkSys c None (l1 ++ th :: l2) pd lg f) (Run (List.length l1))
         (mkSys c' None (l1 ++ set_pc th InSession :: l2) pd (lg ++ [ev]) f)
| StepDepart c l1 th l2 pd lg f c' ev loop :
    tpc th = InSession ->
    leave c (tname th) (tvtype th) = (c', ev, loop) ->
    loop = false \/ (forall t, waiting_get (waiting c') t <= 0) ->
    Step (mkSys c None (l1 ++ th :: l2) pd lg f) (Run (List.length l1))
         (mkSys c' None (l1 ++ set_pc th Done :: l2) pd (lg ++ [ev]) f)
| StepBlock c l1 th l2 pd lg f c' ev t :
    tpc th = InSession ->
    leave c (tname th) (tvtype th) = (c', ev, true) ->
    0 < waiting_get (waiting c') t ->
    Step (mkSys c None (l1 ++ th :: l2) pd lg f) (Run (List.length l1))
         (mkSys c' (Some (List.length l1))
            (l1 ++ set_pc th (BlockedOnNotify t) :: l2) pd (lg ++ [ev]) f)
| StepFinish c lk ths lg :
    forallb (fun th => terminated (tpc th)) ths = true ->
    Step (mkSys c lk ths [] lg false) Finish
         (mkSys c lk ths [] (lg ++ [FINISHED]) true).

(** ** [read_meeting_info]

    The file is given as the list of its lines, as [for ln in f] yields them.
    Characters are ASCII; on them [str.upper] changes the letters [a]-[z] only,
    and the whitespace of [str.strip] and [str.split] is the codes 9-13, 28-31
    and 32. *)

Definition is_space (c : ascii) : bool :=
  let n := nat_of_ascii c in
  ((9 <=? n) && (n <=? 13) || (28 <=? n) && (n <=? 32))%nat.

Definition upper_char (c : ascii) : ascii :=
  let n := nat_of_ascii c in
  if ((97 <=? n) && (n <=? 122))%nat then ascii_of_nat (n - 32) else c.

(** [s.upper()] *)
Fixpoint upper (s : string) : string :=
  match s with
  | EmptyString => EmptyString
  | String c r => String (upper_char c) (upper r)
  end.

Fixpoint lstrip (s : string) : string :=
  match s with
  | EmptyString => EmptyString
  | String c r => if is_space c then lstrip r else s
  end.

Fixpoint rstrip (s : string) : string :=
  match s with
  | EmptyString => EmptyString
  | String c r =>
      match rstrip r with
      | EmptyString => if is_space c then EmptyString else String c EmptyString
      | r' => String c r'
      end
  end.

(** [s.strip()] *)
Definition strip (s : string) : string := rstrip (lstrip s).

(** [s.split()]: the maximal runs of non-whitespace characters; [cur] is the
    run being read. *)
Fixpoint split_ws (s : string) (cur : string) : list string :=
  match s with
  | EmptyString => match cur with EmptyString => [] | _ => [cur] end
  | String c r =>
      if is_space c then
        match cur with
        | EmptyString => split_ws r EmptyString
        | _ => cur :: split_ws r EmptyString
        end
      else split_ws r (cur ++ String c EmptyString)%string
  end.

Definition split (s : string) : list string := split_ws s EmptyString.

(** [s.startswith("#")] *)
Definition startswith_hash (s : string) : bool :=
  match s with
  | String c _ => Ascii.eqb c "#"%char
  | EmptyString => false
  end.

(** [s[-1]]; [None] stands for the IndexError on the empty string. *)
Fixpoint last_char (s : string) : option ascii :=
  match s with
  | EmptyString => None
  | String c EmptyString => Some c
  | String _ r => last_char r
  end.

(** [vtype in ('S','A','O')], with the visitor type the string stands for. *)
Definition vtype_of_string (s : string) : option vtype :=
  if String.eqb s "S" then Some Student
  else if String.eqb s "A" then Some Admin
  else if String.eqb s "O" then Some Online
  else None.

(** [delay = 0.05] *)
Definition default_delay : Q := Qmake 5 100.

Inductive Exn : Type :=
| ValueError (msg : string)
| IndexError.

(** What one line of the file contributes. *)
Inductive LineResult : Type :=
| Skip
| Parsed (it : Item)
| Raise (e : Exn).

(** The body of [for ln in f:]. *)
Definition parse_line (ln : string) : LineResult :=
  let s := strip ln in
  if String.eqb s "" then Skip
  else if startswith_hash s then Skip
  else
    match split s with
    | name :: tok :: _ =>
        let vt := upper tok in
        match vtype_of_string vt with
        | Some v => Parsed (name, v, default_delay)
        | None =>
            match last_char vt with
            | None => Raise IndexError
            | Some ch =>
                match vtype_of_string (String ch EmptyString) with
                | Some v => Parsed (name, v, default_delay)
                | None => Raise (ValueError ("Invalid type in line: " ++ s)%string)
                end
            end
        end
    | _ => Skip
    end.

Fixpoint read_lines (lines : list string) (items : list Item)
  : Exn + list Item :=
  match lines with
  | [] => inr items
  | ln :: rest =>
      match parse_line ln with
      | Skip => read_lines rest items
      | Parsed it => read_lines rest (items ++ [it])
      | Raise e => inl e
      end
  end.

Definition read_meeting_info (lines : list string) : Exn + list Item :=
  read_lines lines [].

(** ** [parse_args] and [run_from_file] *)

Record Args : Type := mkArgs {
  arg_K : Z;
  arg_meeting_file : list string;
  arg_log : string
}.

(** [parse_args]: the positional [K] goes through [type=int] and nothing
    else; the meeting file is given here by its lines. *)
Definition parse_args (k : Z) (meeting_lines : list string) (log_path : string)
  : Args :=
  mkArgs k meeting_lines log_path.

(** [run_from_file] up to the first [th.start()]: an exception of
    [read_meeting_info] ends the program, otherwise the threads are started
    from [init]. *)
Definition run_from_file (k : Z) (meeting_lines : list string) : Exn + Sys :=
  match read_meeting_info meeting_lines with
  | inl e => inl e
  | inr seq => inr (init k seq)
  end.

(** The [__main__] block. *)
Definition main (k : Z) (meeting_lines : list string) (log_path : string)
  : Exn + Sys :=
  let args := parse_args k meeting_lines log_path in
  run_from_file (arg_K args) (arg_meeting_file args).

(** The states a run of the program goes through under a schedule. *)
Definition program_run (k : Z) (meeting_lines : list string)
  (tr : list Action) : option Sys :=
  match main k meeting_lines "out.txt" with
  | inl _ => None
  | inr s0 => run s0 tr
  end.

(** ** Invariants of the reachable states *)

(** The records of the visitors that have registered and are not admitted. *)
Definition waiting_list (ths : list Thread) : list Entry :=
  map thread_record (filter (fun th => queued (tpc th)) ths).

(** The ledger and the waiting counters: thread indices are distinct, the
    ledger holds exactly the records of the visitors that have registered and
    are not yet admitted, and [waiting[t]] counts the entries of type [t]. *)
Record LedgerInv (s : Sys) : Prop := mkLedgerInv {
  li_nodup : NoDup (map tindex (threads s));
  li_bound :
    forall th, In th (threads s) ->
               tindex th <= Z.of_nat (List.length (threads s));
  li_ledger :
    Permutation (entry_order (chamber s)) (waiting_list (threads s));
  li_waiting :
    forall t, waiting_get (waiting (chamber s)) t
              = count_type t (entry_order (chamber s))
}.

(** The occupancy: [count] is the number of visitors inside, all of them have
    the type [current_type], and [count] is bounded as the type requires. *)
Record OccInv (k : Z) (s : Sys) : Prop := mkOccInv {
  oi_K : K (chamber s) = k;
  oi_count : count (chamber s) = occupants (threads s);
  oi_kind :
    forall th, In th (threads s) -> tpc th = InSession ->
               current_type (chamber s) = Some (tvtype th);
  oi_none : current_type (chamber s) = None -> count (chamber s) = 0;
  oi_online : current_type (chamber s) = Some Online -> count (chamber s) = 1;
  oi_batch :
    forall v, is_batch v = true -> current_type (chamber s) = Some v ->
              1 <= count (chamber s) /\ (1 <= k -> count (chamber s) <= k)
}.

(** ** Meeting files used in the examples *)

(** The scenario "K = 1, online" of the description: O1, then S1. *)
Definition online_then_student : list string := ["O1 O"; "S1 S"].

Definition two_students : list string := ["S1 S"; "S2 S"].

Definition one_student : list string := ["S1 S"].

(** O1 and S1 have registered, O1 has started its meeting, S1 has found the
    chamber taken and waits; O1 is about to leave. *)
Definition before_online_leaves : list Action :=
  [Spawn; Run 0; Run 0; Spawn; Run 1; Run 1]%nat.

(** The queue of the examples for [remove_from_queue_by_index]. *)
Definition sample_queue : list Entry :=
  [(1, "a", Student); (2, "b", Admin); (3, "c", Online); (2, "d", Online)].

(** Chambers used in the examples of the admission test. *)
Definition empty_two_students : ChamberState :=
  mkChamber 1 None 0 (mkWaiting 2 0 0) [(1, "S1", Student); (2, "S2", Student)].

Definition admin_session_open : ChamberState :=
  mkChamber 2 (Some Admin) 1 (mkWaiting 1 1 0) [(2, "S1", Student); (3, "A2", Admin)].

Definition empty_online_front : ChamberState :=
  mkChamber 1 None 0 (mkWaiting 0 0 1) [(1, "O1", Online)].

Definition two_students_seq : list Item :=
  [("S1", Student, default_delay); ("S2", Student, default_delay)].

(** With K = 2: S1 and S2 have both entered. *)
Definition both_students_inside : Sys :=
  mkSys (mkChamber 2 (Some Student) 2 (mkWaiting 0 0 0) [])
    None
    [mkThread "S1" Student 1 InSession; mkThread "S2" Student 2 InSession]
    [] 
    [ARRIVED "S1" Student; ENTERED "S1" Student 1;
     ARRIVED "S2" Student; ENTERED "S2" Student 2]
    false.

(** With K = 1: S1 has entered, S2 has registered and waits. *)
Definition one_inside_one_waiting : Sys :=
  mkSys (mkChamber 1 (Some Student) 1 (mkWaiting 1 0 0) [(2, "S2", Student)])
    None
    [mkThread "S1" Student 1 InSession; mkThread "S2" Student 2 Waiting_]
    []
    [ARRIVED "S1" Student; ENTERED "S1" Student 1; ARRIVED "S2" Student]
    false.

Definition enter_one_after_the_other : list Action :=
  [Spawn; Run 0; Run 0; Spawn; Run 1; Run 1]%nat.

(** With K = 2: both students have entered and left, the end is logged. *)
Definition students_served : list Action :=
  [Spawn; Run 0; Run 0; Spawn; Run 1; Run 1; Run 0; Run 1; Finish]%nat.

Definition after_students_served : Sys :=
  mkSys (mkChamber 2 None 0 (mkWaiting 0 0 0) [])
    None
    [mkThread "S1" Student 1 Done; mkThread "S2" Student 2 Done]
    []
    [ARRIVED "S1" Student; ENTERED "S1" Student 1;
     ARRIVED "S2" Student; ENTERED "S2" Student 2;
     LEFT "S1" Student 1; LEFT "S2" Student 0; FINISHED]
    true.

(** With K = 1: S1 has left while S2 waited, and is blocked. *)
Definition student_blocked : Sys :=
  mkSys (mkChamber 1 None 0 (mkWaiting 1 0 0) [(2, "S2", Student)])
    (Some 0%nat)
    [mkThread "S1" Student 1 (BlockedOnNotify Student);
     mkThread "S2" Student 2 Waiting_]
    []
    [ARRIVED "S1" Student; ENTERED "S1" Student 1; ARRIVED "S2" Student;
     LEFT "S1" Student 0]
    false.

Definition three_students_seq : list Item :=
  [("S1", Student, default_delay); ("S2", Student, default_delay);
   ("S3", Student, default_delay)].

(** With K = 1 and three students: S1 is blocked in its departure, S2 waits,
    S3 is not started yet. *)
Definition blocked_before_third : Sys :=
  mkSys (mkChamber 1 None 0 (mkWaiting 1 0 0) [(2, "S2", Student)])
    (Some 0%nat)
    [mkThread "S1" Student 1 (BlockedOnNotify Student);
     mkThread "S2" Student 2 Waiting_]
    [("S3", Student, default_delay)]
    [ARRIVED "S1" Student; ENTERED "S1" Student 1; ARRIVED "S2" Student;
     LEFT "S1" Student 0]
    false.

(** The same once S3 is started: it cannot even register. *)
Definition blocked_after_third : Sys :=
  mkSys (mkChamber 1 None 0 (mkWaiting 1 0 0) [(2, "S2", Student)])
    (Some 0%nat)
    [mkThread "S1" Student 1 (BlockedOnNotify Student);
     mkThread "S2" Student 2 Waiting_;
     mkThread "S3" Student 3 AtRegister]
    []
    [ARRIVED "S1" Student; ENTERED "S1" Student 1; ARRIVED "S2" Student;
     LEFT "S1" Student 0]
    false.

(** ** Further notions used in the properties of runs *)

(** Threads whose position satisfies [f]. *)
Definition count_pc (f : Pc -> bool) (ths : list Thread) : nat :=
  List.length (filter (fun th => f (tpc th)) ths).

(** The registration block has been executed. *)
Definition has_registered (p : Pc) : bool :=
  match p with AtRegister => false | _ => true end.

(** The [if can_enter:] block has been executed. *)
Definition has_entered (p : Pc) : bool :=
  match p with
  | InSession | BlockedOnNotify _ | Crashed | Done => true
  | _ => false
  end.

(** The LEFT or ENDED line has been logged. *)
Definition has_left (p : Pc) : bool :=
  match p with BlockedOnNotify _ | Crashed | Done => true | _ => false end.

(** [l1] is [l2] with some elements taken out, the others in their order. *)
Inductive Subseq {X : Type} : list X -> list X -> Prop :=
| Subseq_nil : Subseq [] []
| Subseq_skip x l1 l2 : Subseq l1 l2 -> Subseq l1 (x :: l2)
| Subseq_keep x l1 l2 : Subseq l1 l2 -> Subseq (x :: l1) (x :: l2).

(** The visitors of the ARRIVED lines of a log, in the order of the lines. *)
Fixpoint arrivals (lg : list Event) : list (string * vtype) :=
  match lg with
  | [] => []
  | ARRIVED name v :: r => (name, v) :: arrivals r
  | _ :: r => arrivals r
  end.

Definition entry_visitor (e : Entry) : string * vtype :=
  (entry_name e, entry_vtype e).

Definition thread_visitor (th : Thread) : string * vtype :=
  (tname th, tvtype th).

Definition item_visitor (it : Item) : string * vtype := fst it.

(** The count printed in a log line is within the capacity [k]. *)
Definition count_in_range (k : Z) (e : Event) : Prop :=
  match e with
  | ENTERED _ _ cnt => 1 <= cnt <= k
  | LEFT _ _ cnt => 0 <= cnt <= k - 1
  | _ => True
  end.

(** The schedule without contention: each visitor is started, registers,
    enters and leaves before the next one is started.  [n] is the number of
    threads started before, [m] the number of visitors still to serve. *)
Fixpoint serve_in_turn (n m : nat) : list Action :=
  match m with
  | O => []
  | S m' => [Spawn; Run n; Run n; Run n] ++ serve_in_turn (S n) m'
  end.

(** The three lines a visitor logs when nobody else is around. *)
Definition served_events (it : Item) : list Event :=
  let '(name, v, _) := it in
  if is_batch v
  then [ARRIVED name v; ENTERED name v 1; LEFT name v 0]
  else [ARRIVED name v; STARTED name; ENDED name].

Definition served_thread (n : nat) (it : Item) : Thread :=
  let '(name, v, _) := it in mkThread name v (Z.of_nat n + 1) Done.

(** Threads [n], [n+1], ... of the items, all returned. *)
Fixpoint served_threads (n : nat) (items : list Item) : list Thread :=
  match items with
  | [] => []
  | it :: r => served_thread n it :: served_threads (S n) r
  end.

Definition is_finished (e : Event) : bool :=
  match e with FINISHED => true | _ => false end.

Definition all_space (s : string) : Prop :=
  forall c, In c (list_ascii_of_string s) -> is_space c = true.

Definition distinct_queue : list Entry :=
  [(1, "S1", Student); (2, "A1", Admin); (3, "O1", Online)].

Definition online_session : ChamberState :=
  mkChamber 3 (Some Online) 1 (mkWaiting 1 0 1) [(2, "S1", Student); (3, "O2", Online)].

Definition student_session_full : ChamberState :=
  mkChamber 2 (Some Student) 2 (mkWaiting 1 1 0) [(3, "S3", Student); (4, "A1", Admin)].

(** Per thread position, what the log holds. *)
Record LogInv (s : Sys) : Prop := mkLogInv {
  lg_arrived :
    count_events is_arrived (log s) = count_pc has_registered (threads s);
  lg_entered :
    count_events is_entered_or_started (log s)
    = count_pc has_entered (threads s);
  lg_left :
    count_events is_left_or_ended (log s) = count_pc has_left (threads s);
  lg_finished :
    count_events is_finished (log s) = if finished s then 1%nat else 0%nat
}.


(** Steps a thread can still take, at most. *)
Definition steps_left (p : Pc) : nat :=
  match p with
  | AtRegister => 3
  | AtEntry | Notified => 2
  | Waiting_ | InSession => 1
  | BlockedOnNotify _ | Crashed | Done => 0
  end.

(** Steps the whole program can still take, at most: four per visitor not
    started, those of the threads, and the final log line. *)
Definition budget (s : Sys) : nat :=
  4 * List.length (pending s)
  + list_sum (map (fun th => steps_left (tpc th)) (threads s))
  + (if finished s then 0 else 1).

(** * Properties *)

(** ** Basic facts *)

Lemma vtype_eqb_spec (a b : vtype) : reflect (a = b) (vtype_eqb a b).
Proof. destruct a, b; simpl; constructor; congruence. Qed.

Lemma vtype_eqb_refl (a : vtype) : vtype_eqb a a = true.
Proof. now destruct a. Qed.

Lemma waiting_get_set (w : Waiting) (t u : vtype) (n : Z) :
  waiting_get (waiting_set w t n) u = if vtype_eqb t u then n else waiting_get w u.
Proof. now destruct t, u. Qed.

(** ** The arrival queue *)

Lemma find_position_none (q : list Entry) (index : Z) :
  forall i, find_position i q index = None <->
            (forall e, In e q -> entry_index e <> index).
Proof.
  induction q as [|[[idx name] v] rest IH]; intros i; simpl.
  - split; [intros _ e [] | reflexivity].
  - destruct (Z.eqb_spec idx index) as [E|E].
    + split; [discriminate|].
      intros H. exfalso. apply (H (idx, name, v)); [now left | exact E].
    + rewrite IH. split.
      * intros H e [<-|Hin]; [exact E | now apply H].
      * intros H e Hin. apply H. now right.
Qed.

(** The position found is that of the first entry with the index, and deleting
    there keeps what is before and what is after, in order. *)
Lemma find_position_some (q : list Entry) (index : Z) :
  forall i p, find_position i q index = Some p ->
    exists l1 e l2,
      q = l1 ++ e :: l2 /\ entry_index e = index /\
      (forall x, In x l1 -> entry_index x <> index) /\
      p = (i + List.length l1)%nat /\
      del_at (List.length l1) q = l1 ++ l2.
Proof.
  induction q as [|[[idx name] v] rest IH]; intros i p; simpl; [discriminate|].
  destruct (Z.eqb_spec idx index) as [E|E].
  - intros [= <-]. exists [], (idx, name, v), rest. simpl.
    rewrite Nat.add_0_r. repeat split; auto; try contradiction.
  - intros H. destruct (IH _ _ H) as (l1 & e & l2 & -> & He & Hl1 & -> & Hdel).
    exists ((idx, name, v) :: l1), e, l2. simpl.
    split; [reflexivity|]. split; [exact He|]. split; [|split].
    + intros x [<-|Hin]; [exact E | now apply Hl1].
    + lia.
    + now rewrite Hdel.
Qed.

Lemma remove_found (q : list Entry) (index : Z) :
  (exists e, In e q /\ entry_index e = index) ->
  exists l1 e l2,
    q = l1 ++ e :: l2 /\ entry_index e = index /\
    (forall x, In x l1 -> entry_index x <> index) /\
    remove_from_queue_by_index q index = (true, l1 ++ l2).
Proof.
  intros (e0 & Hin & He0). unfold remove_from_queue_by_index.
  destruct (find_position 0 q index) as [p|] eqn:F.
  - destruct (find_position_some _ _ _ _ F) as (l1 & e & l2 & Hq & He & Hl1 & Hp & Hdel).
    subst p. simpl. exists l1, e, l2. now rewrite Hdel.
  - exfalso. rewrite find_position_none in F. exact (F e0 Hin He0).
Qed.

Lemma remove_not_found (q : list Entry) (index : Z) :
  (forall e, In e q -> entry_index e <> index) ->
  remove_from_queue_by_index q index = (false, q).
Proof.
  intros H. unfold remove_from_queue_by_index.
  now rewrite (proj2 (find_position_none q index 0) H).
Qed.

(** C9. For every queue and index: when some entry carries the index, the
    call removes the first entry that does, keeps every other entry in its
    order, and returns True; when none does, the queue is unchanged and the
    call returns False. *)
Theorem remove_from_queue_by_index_spec (q : list Entry) (index : Z) :
  ((exists e, In e q /\ entry_index e = index) ->
   exists l1 e l2,
     q = l1 ++ e :: l2 /\ entry_index e = index /\
     (forall x, In x l1 -> entry_index x <> index) /\
     remove_from_queue_by_index q index = (true, l1 ++ l2))
  /\
  ((forall e, In e q -> entry_index e <> index) ->
   remove_from_queue_by_index q index = (false, q)).
Proof.
  split; [apply remove_found | apply remove_not_found].
Qed.

Lemma remove_from_queue_by_index_spec_witness :
  (exists l1 e l2,
     sample_queue = l1 ++ e :: l2 /\ entry_index e = 2 /\
     (forall x, In x l1 -> entry_index x <> 2) /\
     remove_from_queue_by_index sample_queue 2 = (true, l1 ++ l2))
  /\ remove_from_queue_by_index sample_queue 7 = (false, sample_queue).
Proof.
  split.
  - apply (proj1 (remove_from_queue_by_index_spec sample_queue 2)).
    exists (2, "b", Admin). split; [simpl; auto | reflexivity].
  - apply (proj2 (remove_from_queue_by_index_spec sample_queue 7)).
    intros e Hin. simpl in Hin.
    destruct Hin as [<-|[<-|[<-|[<-|[]]]]]; discriminate.
Defined.

(** ** Steps of the transition system *)

Lemma update_nth_app {X : Type} (l1 : list X) (x y : X) (l2 : list X) :
  update_nth (List.length l1) y (l1 ++ x :: l2) = l1 ++ y :: l2.
Proof. induction l1 as [|a l1 IH]; simpl; [reflexivity | now rewrite IH]. Qed.

(** The loop of a departure is entered with the lock held by the leaving
    thread itself: it ends without having notified anyone, or it blocks at the
    first type that has a waiting visitor. *)
Lemma notify_waiting_types_held (ts : list vtype) (w : Waiting) (me : nat)
  (ths : list Thread) :
  (notify_waiting_types ts w (Some me) ths = NotifyDone (Some me) ths /\
   forall t, In t ts -> waiting_get w t <= 0)
  \/
  (exists t, In t ts /\ 0 < waiting_get w t /\
             notify_waiting_types ts w (Some me) ths = NotifyBlocked t).
Proof.
  induction ts as [|t ts IH]; simpl.
  - left. split; [reflexivity | intros t []].
  - destruct (Z.ltb_spec 0 (waiting_get w t)) as [Hpos|Hle].
    + right. exists t. auto.
    + destruct IH as [[-> Hall]|(u & Hin & Hu & ->)].
      * left. split; [reflexivity|]. intros u [<-|Hin]; auto.
      * right. exists u. auto.
Qed.

Lemma notify_order_complete (t : vtype) : In t notify_order.
Proof. destruct t; simpl; auto. Qed.

(** A departure never reaches [notify_all]: the threads are left as they
    were, and the leaving thread either returns or blocks on the lock it
    holds. *)
Lemma depart_cases (c : ChamberState) (name : string) (v : vtype) (me : nat)
  (ths : list Thread) :
  let '(c', ev, loop) := leave c name v in
  (depart c name v me ths = (c', ev, NotifyDone (Some me) ths) /\
   (loop = false \/ forall t, waiting_get (waiting c') t <= 0))
  \/
  (exists t, loop = true /\ 0 < waiting_get (waiting c') t /\
             depart c name v me ths = (c', ev, NotifyBlocked t)).
Proof.
  unfold depart. destruct (leave c name v) as [[c' ev] loop].
  destruct loop.
  - destruct (notify_waiting_types_held notify_order (waiting c') me ths)
      as [[-> Hall]|(t & _ & Ht & ->)].
    + left. split; [reflexivity|]. right. intros t. apply Hall, notify_order_complete.
    + right. exists t. auto.
  - left. auto.
Qed.

Lemma exec_Step (s : Sys) (a : Action) (s' : Sys) :
  exec s a = Some s' -> Step s a s'.
Proof.
  destruct s as [c lk ths pd lg f]. destruct a as [|tid|]; simpl.
  - destruct pd as [|[[name v] d] rest]; [discriminate|].
    intros [= <-]. constructor.
  - destruct (nth_error ths tid) as [th|] eqn:Hn; [|discriminate].
    destruct (nth_error_split _ _ Hn) as (l1 & l2 & -> & <-).
    unfold run_thread; simpl. destruct lk; [discriminate|].
    destruct (tpc th) eqn:Hpc; try discriminate.
    + destruct (register c (tname th) (tvtype th) (tindex th)) as [c' ev] eqn:R.
      intros [= <-]. rewrite update_nth_app. now constructor.
    + unfold entry_attempt.
      destruct (can_enter c (tvtype th)) eqn:CE.
      * destruct (enter c (tname th) (tvtype th) (tindex th)) as [c' ev] eqn:En.
        intros [= <-]. rewrite update_nth_app. apply StepEnter; auto.
      * intros [= <-]. rewrite update_nth_app, app_nil_r. apply StepWait; auto.
    + unfold entry_attempt.
      destruct (can_enter c (tvtype th)) eqn:CE.
      * destruct (enter c (tname th) (tvtype th) (tindex th)) as [c' ev] eqn:En.
        intros [= <-]. rewrite update_nth_app. apply StepEnter; auto.
      * intros [= <-]. rewrite update_nth_app, app_nil_r. apply StepWait; auto.
    + pose proof (depart_cases c (tname th) (tvtype th) (List.length l1)
                    (l1 ++ th :: l2)) as D.
      destruct (leave c (tname th) (tvtype th)) as [[c' ev] loop] eqn:L.
      destruct D as [[-> Hw]|(t & -> & Ht & ->)].
      * intros [= <-]. rewrite update_nth_app. eapply StepDepart; eauto.
      * intros [= <-]. rewrite update_nth_app. eapply StepBlock; eauto.
  - destruct pd; [|discriminate].
    destruct (forallb _ ths) eqn:Hall; simpl; [|discriminate].
    destruct f; simpl; [discriminate|].
    intros [= <-]. now constructor.
Qed.

(** A property that holds initially and is kept by every step holds after
    every schedule. *)
Lemma run_invariant (P : Sys -> Prop) :
  (forall s a s', P s -> exec s a = Some s' -> P s') ->
  forall tr s s', P s -> run s tr = Some s' -> P s'.
Proof.
  intros Hstep. induction tr as [|a tr IH]; simpl; intros s s' Hs.
  - now intros [= <-].
  - destruct (exec s a) as [s1|] eqn:E; [|discriminate].
    apply IH. eapply Hstep; eauto.
Qed.

(** Once the lock has an owner it keeps it, and no visitor thread takes a
    step any more: the owner is blocked on the lock it holds. *)
Lemma lock_held_forever (s : Sys) (a : Action) (s' : Sys) (t : nat) :
  lock s = Some t -> exec s a = Some s' ->
  lock s' = Some t /\ chamber s' = chamber s /\ (forall tid, a <> Run tid) /\
  (forall tid, nth_error (threads s') tid = nth_error (threads s) tid \/
               nth_error (threads s) tid = None).
Proof.
  intros Hl E. apply exec_Step in E.
  destruct E; simpl in *; try discriminate.
  - repeat split; auto; try discriminate.
    intros tid. destruct (Nat.lt_ge_cases tid (List.length ths)).
    + left. now rewrite nth_error_app1.
    + right. now apply nth_error_None.
  - repeat split; auto; discriminate.
Qed.

(** ** The occupancy invariant *)

#[local] Arguments occupants : simpl never.
#[local] Arguments count_type : simpl never.

Lemma occupants_app (l1 l2 : list Thread) :
  occupants (l1 ++ l2) = occupants l1 + occupants l2.
Proof. unfold occupants. rewrite filter_app, length_app. lia. Qed.

Lemma occupants_cons (th : Thread) (l : list Thread) :
  occupants (th :: l) = (if in_session (tpc th) then 1 else 0) + occupants l.
Proof.
  unfold occupants. cbn [filter]. destruct (in_session (tpc th));
    cbn [List.length]; lia.
Qed.

Lemma occupants_nonneg (l : list Thread) : 0 <= occupants l.
Proof. unfold occupants. lia. Qed.

Lemma occupants_zero (l : list Thread) (th : Thread) :
  occupants l = 0 -> In th l -> tpc th <> InSession.
Proof.
  induction l as [|a l IH]; [intros _ []|].
  rewrite occupants_cons. pose proof (occupants_nonneg l) as Hn.
  intros H [<-|Hin] Hpc.
  - rewrite Hpc in H. cbn [in_session] in H. lia.
  - destruct (in_session (tpc a)); [lia|]. apply (IH H Hin Hpc).
Qed.

Lemma occupants_mid (l1 l2 : list Thread) (th : Thread) :
  occupants (l1 ++ th :: l2)
  = occupants l1 + (if in_session (tpc th) then 1 else 0) + occupants l2.
Proof. rewrite occupants_app, occupants_cons. lia. Qed.

Lemma occupants_nil : occupants [] = 0.
Proof. reflexivity. Qed.

(** Projections of explicit records, without touching the arithmetic. *)
Ltac sys_simpl :=
  cbn [chamber lock threads pending log finished K current_type count waiting
       entry_order tname tvtype tindex tpc set_pc in_session queued fst snd] in *.

Ltac occ :=
  rewrite ?occupants_mid, ?occupants_app, ?occupants_cons, ?occupants_nil;
  sys_simpl; lia.

Lemma in_mid_inv {X : Type} (l1 l2 : list X) (x y z : X) :
  In z (l1 ++ y :: l2) -> z = y \/ In z (l1 ++ x :: l2).
Proof.
  rewrite !in_app_iff. simpl. intros [H|[H|H]]; auto.
Qed.

Lemma OccInv_init (k : Z) (seq : list Item) : OccInv k (init k seq).
Proof.
  constructor; simpl; try reflexivity; try discriminate; intros; contradiction.
Qed.

Lemma OccInv_step (k : Z) (s : Sys) (a : Action) (s' : Sys) :
  OccInv k s -> exec s a = Some s' -> OccInv k s'.
Proof.
  intros [HK Hc Hk Hn Ho Hb] E. apply exec_Step in E.
  destruct E; sys_simpl.
  - (* Spawn *)
    constructor; sys_simpl; auto.
    + occ.
    + intros th Hin Hpc. apply in_app_iff in Hin. destruct Hin as [Hin|[<-|[]]]; auto.
      discriminate.
  - (* Register *)
    unfold register in H0. injection H0 as <- <-.
    rewrite occupants_mid in Hc. rewrite H in Hc. sys_simpl.
    constructor; sys_simpl; auto.
    + occ.
    + intros z Hin Hpc. apply (in_mid_inv _ _ th) in Hin.
      destruct Hin as [->|Hin]; [discriminate | auto].
  - (* Wait *)
    rewrite occupants_mid in Hc.
    assert (in_session (tpc th) = false) as Hs by (destruct H as [-> | ->]; reflexivity).
    rewrite Hs in Hc.
    constructor; sys_simpl; auto.
    + occ.
    + intros z Hin Hpc. apply (in_mid_inv _ _ th) in Hin.
      destruct Hin as [->|Hin]; [discriminate | auto].
  - (* Admit *)
    rewrite occupants_mid in Hc.
    assert (in_session (tpc th) = false) as Hs by (destruct H as [-> | ->]; reflexivity).
    rewrite Hs in Hc.
    pose proof (occupants_nonneg l1) as N1. pose proof (occupants_nonneg l2) as N2.
    unfold can_enter in H0. unfold enter in H1.
    destruct (is_batch (tvtype th)) eqn:B.
    + injection H1 as <- <-.
      destruct (current_type c) as [cur|] eqn:CT.
      * apply andb_true_iff in H0. destruct H0 as [Hcur Hlt].
        destruct (vtype_eqb_spec cur (tvtype th)) as [->|]; [|discriminate].
        apply Z.ltb_lt in Hlt. destruct (Hb _ B eq_refl) as [Hge Hle].
        constructor; sys_simpl; auto.
        -- occ.
        -- intros z Hin Hpc. apply (in_mid_inv _ _ th) in Hin.
           destruct Hin as [->|Hin]; [reflexivity | auto].
        -- discriminate.
        -- intros E. injection E as E. rewrite E in B. discriminate.
        -- intros v _ _. split; [lia|]. intros _. lia.
      * specialize (Hn eq_refl).
        assert (occupants (l1 ++ th :: l2) = 0) as Hz
            by (rewrite occupants_mid, Hs; lia).
        constructor; sys_simpl; auto.
        -- occ.
        -- intros z Hin Hpc. apply (in_mid_inv _ _ th) in Hin.
           destruct Hin as [->|Hin]; [reflexivity|].
           exfalso. exact (occupants_zero _ _ Hz Hin Hpc).
        -- discriminate.
        -- intros E. injection E as E. rewrite E in B. discriminate.
        -- intros v _ _. split; [lia|]. intros Hk1. lia.
    + injection H1 as <- <-.
      assert (tvtype th = Online) as Hv by (destruct (tvtype th); try discriminate; reflexivity).
      destruct (current_type c) as [cur|] eqn:CT; [discriminate|].
      specialize (Hn eq_refl).
      assert (occupants (l1 ++ th :: l2) = 0) as Hz
          by (rewrite occupants_mid, Hs; lia).
      constructor; sys_simpl; auto.
      -- occ.
      -- intros z Hin Hpc. apply (in_mid_inv _ _ th) in Hin.
         destruct Hin as [->|Hin]; [sys_simpl; now rewrite Hv|].
         exfalso. exact (occupants_zero _ _ Hz Hin Hpc).
      -- discriminate.
      -- intros v Bv E. injection E as <-. discriminate.
  - (* Depart, returning *)
    clear H1.
    rewrite occupants_mid in Hc. rewrite H in Hc. sys_simpl.
    pose proof (occupants_nonneg l1) as N1. pose proof (occupants_nonneg l2) as N2.
    assert (current_type c = Some (tvtype th)) as CT
        by (apply Hk; [apply in_elt | exact H]).
    unfold leave in H0.
    assert (forall z, occupants l1 + occupants l2 = 0 ->
                      In z (l1 ++ set_pc th Done :: l2) -> tpc z <> InSession) as Hnone.
    { intros z Hz Hin. apply (occupants_zero (l1 ++ set_pc th Done :: l2)); auto.
      occ. }
    destruct (is_batch (tvtype th)) eqn:B.
    + destruct (Hb _ B CT) as [Hge Hle].
      destruct (Z.eqb_spec (count c - 1) 0) as [Hz|Hnz]; injection H0 as <- <- <-.
      * constructor; sys_simpl; auto; try discriminate.
        -- occ.
        -- intros z Hin Hpc. exfalso. apply (Hnone z); auto. lia.
      * constructor; sys_simpl; auto.
        -- occ.
        -- intros z Hin Hpc. apply (in_mid_inv _ _ th) in Hin.
           destruct Hin as [->|Hin]; [discriminate | auto].
        -- rewrite CT. discriminate.
        -- rewrite CT. intros E. injection E as E. rewrite E in B. discriminate.
        -- intros v Bv E. destruct (Hb v Bv E). split; [lia|]. intros; lia.
    + injection H0 as <- <- <-.
      assert (tvtype th = Online) as Hv by (destruct (tvtype th); try discriminate; reflexivity).
      rewrite Hv in CT. specialize (Ho CT).
      constructor; sys_simpl; auto; try discriminate.
      -- occ.
      -- intros z Hin Hpc. exfalso. apply (Hnone z); auto. lia.
  - (* Depart, blocking *)
    clear H1.
    rewrite occupants_mid in Hc. rewrite H in Hc. sys_simpl.
    pose proof (occupants_nonneg l1) as N1. pose proof (occupants_nonneg l2) as N2.
    assert (current_type c = Some (tvtype th)) as CT
        by (apply Hk; [apply in_elt | exact H]).
    unfold leave in H0.
    assert (forall z, occupants l1 + occupants l2 = 0 ->
                      In z (l1 ++ set_pc th (BlockedOnNotify t) :: l2) ->
                      tpc z <> InSession) as Hnone.
    { intros z Hz Hin.
      apply (occupants_zero (l1 ++ set_pc th (BlockedOnNotify t) :: l2)); auto.
      occ. }
    destruct (is_batch (tvtype th)) eqn:B.
    + destruct (Hb _ B CT) as [Hge Hle].
      destruct (Z.eqb_spec (count c - 1) 0) as [Hz|Hnz]; [|discriminate].
      injection H0 as <- <-.
      constructor; sys_simpl; auto; try discriminate.
      -- occ.
      -- intros z Hin Hpc. exfalso. apply (Hnone z); auto. lia.
    + injection H0 as <- <-.
      assert (tvtype th = Online) as Hv by (destruct (tvtype th); try discriminate; reflexivity).
      rewrite Hv in CT. specialize (Ho CT).
      constructor; sys_simpl; auto; try discriminate.
      -- occ.
      -- intros z Hin Hpc. exfalso. apply (Hnone z); auto. lia.
  - (* Finish *)
    constructor; sys_simpl; auto.
Qed.

Lemma OccInv_run (k : Z) (seq : list Item) (tr : list Action) (s : Sys) :
  run (init k seq) tr = Some s -> OccInv k s.
Proof.
  apply (run_invariant (OccInv k)).
  - intros s0 a s1. apply OccInv_step.
  - apply OccInv_init.
Qed.

(** ** The ledger invariant *)

Lemma count_type_app (t : vtype) (q1 q2 : list Entry) :
  count_type t (q1 ++ q2) = count_type t q1 + count_type t q2.
Proof. unfold count_type. rewrite filter_app, length_app. lia. Qed.

Lemma count_type_cons (t : vtype) (e : Entry) (q : list Entry) :
  count_type t (e :: q)
  = (if vtype_eqb (entry_vtype e) t then 1 else 0) + count_type t q.
Proof.
  unfold count_type. cbn [filter]. destruct (vtype_eqb (entry_vtype e) t);
    cbn [List.length]; lia.
Qed.

Lemma count_type_nil (t : vtype) : count_type t [] = 0.
Proof. reflexivity. Qed.

Lemma count_type_nonneg (t : vtype) (q : list Entry) : 0 <= count_type t q.
Proof. unfold count_type. lia. Qed.

Lemma waiting_list_mid (l1 l2 : list Thread) (th : Thread) :
  waiting_list (l1 ++ th :: l2)
  = waiting_list l1
    ++ (if queued (tpc th) then [thread_record th] else [])
    ++ waiting_list l2.
Proof.
  unfold waiting_list. rewrite filter_app, map_app. cbn [filter].
  now destruct (queued (tpc th)).
Qed.

Lemma thread_record_set_pc (th : Thread) (p : Pc) :
  thread_record (set_pc th p) = thread_record th.
Proof. reflexivity. Qed.

Lemma map_tindex_mid (l1 l2 : list Thread) (th : Thread) (p : Pc) :
  map tindex (l1 ++ set_pc th p :: l2) = map tindex (l1 ++ th :: l2).
Proof. now rewrite !map_app. Qed.

Lemma length_mid {X : Type} (l1 l2 : list X) (x y : X) :
  List.length (l1 ++ y :: l2) = List.length (l1 ++ x :: l2).
Proof. now rewrite !length_app. Qed.

Lemma bound_mid (l1 l2 : list Thread) (th : Thread) (p : Pc) :
  (forall z, In z (l1 ++ th :: l2) ->
             tindex z <= Z.of_nat (List.length (l1 ++ th :: l2))) ->
  forall z, In z (l1 ++ set_pc th p :: l2) ->
            tindex z <= Z.of_nat (List.length (l1 ++ set_pc th p :: l2)).
Proof.
  intros H z Hin. rewrite (length_mid l1 l2 th).
  apply (in_mid_inv _ _ th) in Hin. destruct Hin as [->|Hin].
  - apply (H th). apply in_elt.
  - now apply H.
Qed.

(** The waiting visitors have distinct indices. *)
Lemma NoDup_waiting_list (ths : list Thread) :
  NoDup (map tindex ths) -> NoDup (map entry_index (waiting_list ths)).
Proof.
  unfold waiting_list. induction ths as [|th ths IH]; simpl; [constructor|].
  intros H. inversion H as [|x l Hnotin Hnd]; subst.
  destruct (queued (tpc th)); simpl; auto.
  constructor; auto.
  intros Hin. apply Hnotin.
  rewrite in_map_iff in Hin. destruct Hin as (e & He & Hin).
  rewrite in_map_iff in Hin. destruct Hin as (z & <- & Hz).
  apply filter_In in Hz. rewrite in_map_iff. exists z. split; [exact He | tauto].
Qed.

Lemma NoDup_map_unique {X Y : Type} (f : X -> Y) (l : list X) (x y : X) :
  NoDup (map f l) -> In x l -> In y l -> f x = f y -> x = y.
Proof.
  induction l as [|a l IH]; simpl; [intros _ []|].
  intros H. inversion H as [|z l' Hnotin Hnd]; subst.
  intros [<-|Hx] [<-|Hy] Heq; auto.
  - exfalso. apply Hnotin. rewrite Heq. now apply in_map.
  - exfalso. apply Hnotin. rewrite <- Heq. now apply in_map.
Qed.

(** Under the ledger invariant, the removal done at an admission takes the
    visitor's own record out of the ledger, and nothing else. *)
Lemma remove_own_record (q : list Entry) (ths1 ths2 : list Thread) (th : Thread) :
  NoDup (map tindex (ths1 ++ th :: ths2)) ->
  queued (tpc th) = true ->
  Permutation q (waiting_list (ths1 ++ th :: ths2)) ->
  exists q1 q2,
    q = q1 ++ thread_record th :: q2 /\
    remove_from_queue_by_index q (tindex th) = (true, q1 ++ q2) /\
    Permutation (q1 ++ q2) (waiting_list ths1 ++ waiting_list ths2).
Proof.
  intros Hnd Hq Hperm.
  assert (In (thread_record th) q) as Hin.
  { eapply Permutation_in; [apply Permutation_sym, Hperm|].
    rewrite waiting_list_mid, Hq. apply in_elt. }
  destruct (remove_found q (tindex th)) as (q1 & e & q2 & Hqe & He & _ & Hrem).
  { exists (thread_record th). split; [exact Hin | reflexivity]. }
  assert (e = thread_record th) as ->.
  { apply (NoDup_map_unique entry_index q); auto.
    - eapply Permutation_NoDup.
      + apply Permutation_map, Permutation_sym, Hperm.
      + now apply NoDup_waiting_list.
    - rewrite Hqe. apply in_elt. }
  exists q1, q2. repeat split; auto.
  rewrite Hqe, waiting_list_mid, Hq in Hperm. simpl in Hperm.
  eapply Permutation_app_inv. exact Hperm.
Qed.

Lemma LedgerInv_init (k : Z) (seq : list Item) : LedgerInv (init k seq).
Proof.
  constructor; simpl; try constructor. - intros th []. - now intros [].
Qed.

Lemma waiting_list_app (l1 l2 : list Thread) :
  waiting_list (l1 ++ l2) = waiting_list l1 ++ waiting_list l2.
Proof. unfold waiting_list. now rewrite filter_app, map_app. Qed.

Ltac cnt :=
  rewrite ?count_type_app, ?count_type_cons, ?count_type_nil;
  cbn [entry_vtype thread_record own_record snd]; sys_simpl.

Lemma LedgerInv_step (s : Sys) (a : Action) (s' : Sys) :
  LedgerInv s -> exec s a = Some s' -> LedgerInv s'.
Proof.
  intros [Hnd Hbd Hperm Hw] E. apply exec_Step in E.
  destruct E; sys_simpl.
  - (* Spawn *)
    constructor; sys_simpl; auto.
    + rewrite map_app. cbn [map tindex].
      eapply Permutation_NoDup; [apply Permutation_cons_append|].
      constructor; auto.
      intros Hin. rewrite in_map_iff in Hin. destruct Hin as (z & Hz & Hin).
      specialize (Hbd z Hin). lia.
    + intros z Hin. rewrite length_app. cbn [List.length].
      apply in_app_iff in Hin. destruct Hin as [Hin|[<-|[]]].
      * specialize (Hbd z Hin). lia.
      * cbn [tindex]. lia.
    + rewrite waiting_list_app. unfold waiting_list at 2. cbn.
      now rewrite app_nil_r.
  - (* Register *)
    unfold register in H0. injection H0 as <- <-.
    rewrite waiting_list_mid, H in Hperm. cbn [queued app] in Hperm.
    constructor; sys_simpl.
    + now rewrite map_tindex_mid.
    + now apply bound_mid.
    + rewrite waiting_list_mid. cbn [set_pc tpc queued app].
      rewrite thread_record_set_pc.
      eapply Permutation_trans; [apply Permutation_sym, Permutation_cons_append|].
      now apply Permutation_cons_app.
    + intros t. rewrite waiting_get_set, !Hw. cnt.
      destruct (vtype_eqb_spec (tvtype th) t) as [<-|]; lia.
  - (* Wait *)
    assert (queued (tpc th) = true) as Hq by (destruct H as [-> | ->]; reflexivity).
    constructor; sys_simpl; auto.
    + now rewrite map_tindex_mid.
    + now apply bound_mid.
    + rewrite waiting_list_mid in *. cbn [set_pc tpc queued].
      now rewrite Hq in Hperm.
  - (* Admit *)
    assert (queued (tpc th) = true) as Hq by (destruct H as [-> | ->]; reflexivity).
    destruct (remove_own_record _ _ _ _ Hnd Hq Hperm) as (q1 & q2 & Hqe & Hrem & Hp).
    assert (forall t, waiting_get
                        (waiting_set (waiting c) (tvtype th)
                           (waiting_get (waiting c) (tvtype th) - 1)) t
                      = count_type t (q1 ++ q2)) as Hw'.
    { intros t. rewrite waiting_get_set, !Hw, Hqe. cnt.
      destruct (vtype_eqb_spec (tvtype th) t) as [->|].
      - rewrite vtype_eqb_refl. lia.
      - lia. }
    unfold enter in H1. rewrite Hrem in H1. cbn [snd] in H1.
    assert (c' = mkChamber (K c') (current_type c') (count c')
                   (waiting_set (waiting c) (tvtype th)
                      (waiting_get (waiting c) (tvtype th) - 1)) (q1 ++ q2)) as ->.
    { destruct (is_batch (tvtype th)) eqn:B; injection H1 as <- <-; [reflexivity|].
      assert (tvtype th = Online) as -> by (destruct (tvtype th); try discriminate; reflexivity).
      reflexivity. }
    constructor; sys_simpl; auto.
    + now rewrite map_tindex_mid.
    + now apply bound_mid.
    + rewrite waiting_list_mid. cbn [set_pc tpc queued app]. exact Hp.
  - (* Depart, returning *)
    clear H1. rewrite waiting_list_mid, H in Hperm. cbn [queued app] in Hperm.
    assert (waiting c' = waiting c /\ entry_order c' = entry_order c) as [Ew Eq].
    { unfold leave in H0. destruct (is_batch (tvtype th));
        [destruct (count c - 1 =? 0)|]; injection H0 as <- <- <-; auto. }
    constructor; sys_simpl.
    + now rewrite map_tindex_mid.
    + now apply bound_mid.
    + rewrite Eq, waiting_list_mid. cbn [set_pc tpc queued app]. exact Hperm.
    + intros t. now rewrite Ew, Eq.
  - (* Depart, blocking *)
    clear H1. rewrite waiting_list_mid, H in Hperm. cbn [queued app] in Hperm.
    assert (waiting c' = waiting c /\ entry_order c' = entry_order c) as [Ew Eq].
    { unfold leave in H0. destruct (is_batch (tvtype th));
        [destruct (count c - 1 =? 0)|]; try discriminate;
        injection H0 as <- <-; auto. }
    constructor; sys_simpl.
    + now rewrite map_tindex_mid.
    + now apply bound_mid.
    + rewrite Eq, waiting_list_mid. cbn [set_pc tpc queued app]. exact Hperm.
    + intros u. now rewrite Ew, Eq.
  - (* Finish *)
    constructor; sys_simpl; auto.
Qed.

Lemma LedgerInv_run (k : Z) (seq : list Item) (tr : list Action) (s : Sys) :
  run (init k seq) tr = Some s -> LedgerInv s.
Proof.
  apply (run_invariant LedgerInv).
  - intros s0 a s1. apply LedgerInv_step.
  - apply LedgerInv_init.
Qed.

(** ** Admission *)

Lemma enters_iff (c : ChamberState) (th : Thread) :
  enters c th <-> can_enter c (tvtype th) = true.
Proof.
  unfold enters, entry_attempt.
  destruct (can_enter c (tvtype th)).
  - destruct (enter c (tname th) (tvtype th) (tindex th)). simpl. tauto.
  - simpl. split; discriminate.
Qed.

Lemma front_type_iff (c : ChamberState) (v : vtype) :
  match entry_order c with
  | (_, _, front_type) :: _ => vtype_eqb front_type v
  | [] => false
  end = true <-> front_has_type c v.
Proof.
  unfold front_has_type. destruct (entry_order c) as [|[[idx name] ft] rest].
  - split; [discriminate | intros (? & ? & ? & [=])].
  - destruct (vtype_eqb_spec ft v) as [->|N].
    + split; [eauto | reflexivity].
    + split; [discriminate | intros (? & ? & ? & [= _ _ -> _]); contradiction].
Qed.

(** C1, as the code has it.  A Student or Admin visitor that finds the
    chamber empty is admitted if and only if the front entry of the ledger has
    the visitor's type (the entry need not be the visitor's own); with a
    session of its own type open and [count < K] it is admitted whatever the
    ledger holds.  An Online visitor is admitted if and only if the chamber is
    empty and the front entry of the ledger is of type Online.  A visitor whose
    own record is the front is admitted when the chamber is empty. *)
Theorem entry_admissibility (c : ChamberState) (th : Thread) :
  (is_batch (tvtype th) = true ->
     (current_type c = None ->
        (enters c th <-> front_has_type c (tvtype th)))
     /\ (current_type c = Some (tvtype th) -> count c < K c -> enters c th))
  /\ (tvtype th = Online ->
        (enters c th <-> current_type c = None /\ front_has_type c Online))
  /\ (current_type c = None ->
        own_record_is_front c (tname th) (tvtype th) (tindex th) ->
        enters c th).
Proof.
  rewrite enters_iff. unfold can_enter.
  split; [|split].
  - intros B. rewrite B. split.
    + intros CT. rewrite CT. apply front_type_iff.
    + intros CT Hlt. rewrite CT, vtype_eqb_refl. simpl. now apply Z.ltb_lt.
  - intros E. rewrite E. simpl. destruct (current_type c).
    + split; [discriminate | intros [[=] _]].
    + rewrite front_type_iff. tauto.
  - intros CT [rest Hfront]. rewrite CT.
    assert (front_has_type c (tvtype th)) as F
        by (unfold front_has_type, own_record in *; eauto).
    destruct (is_batch (tvtype th)) eqn:B.
    + now apply front_type_iff.
    + assert (tvtype th = Online) as E
          by (destruct (tvtype th); try discriminate; reflexivity).
      rewrite E in F. now apply front_type_iff.
Qed.

Lemma entry_admissibility_witness :
  enters empty_two_students (mkThread "S2" Student 2 AtEntry)
  /\ enters admin_session_open (mkThread "A2" Admin 3 AtEntry)
  /\ enters empty_online_front (mkThread "O1" Online 1 AtEntry).
Proof.
  split; [|split].
  - apply (proj1 (proj1 (entry_admissibility empty_two_students
                           (mkThread "S2" Student 2 AtEntry)) eq_refl) eq_refl).
    unfold front_has_type. simpl. eauto.
  - apply (proj2 (proj1 (entry_admissibility admin_session_open
                           (mkThread "A2" Admin 3 AtEntry)) eq_refl) eq_refl).
    simpl. lia.
  - apply (proj2 (proj2 (entry_admissibility empty_online_front
                           (mkThread "O1" Online 1 AtEntry))) eq_refl).
    exists []. reflexivity.
Defined.

(** C1 as stated fails: with S1 and S2 both registered and the chamber
    empty, S2 is admitted although the front of the ledger is the record of
    S1, not its own. *)
Lemma entry_admissibility_counterexample :
  exists s,
    program_run 1 two_students [Spawn; Run 0; Spawn; Run 1]%nat = Some s /\
    nth_error (threads s) 1 = Some (mkThread "S2" Student 2 AtEntry) /\
    current_type (chamber s) = None /\
    enters (chamber s) (mkThread "S2" Student 2 AtEntry) /\
    ~ own_record_is_front (chamber s) "S2" Student 2.
Proof.
  eexists. split; [vm_compute; reflexivity|].
  split; [reflexivity|]. split; [reflexivity|]. split; [reflexivity|].
  intros [rest H]. discriminate H.
Qed.

(** ** Order of opening *)

(** C7. Whenever a step takes the chamber from empty to occupied, the step
    is an admission, and the type of the visitor it admits is the type of the
    front entry of the ledger at that instant. *)
Theorem order_of_opening (s : Sys) (a : Action) (s' : Sys) (k : vtype) :
  exec s a = Some s' ->
  current_type (chamber s) = None ->
  current_type (chamber s') = Some k ->
  front_has_type (chamber s) k /\
  exists tid th,
    a = Run tid /\ nth_error (threads s) tid = Some th /\
    tvtype th = k /\ enters (chamber s) th /\
    nth_error (threads s') tid = Some (set_pc th InSession).
Proof.
  intros E. apply exec_Step in E. destruct E; sys_simpl; intros HN HS;
    try congruence.
  - unfold register in H0. injection H0 as <- <-. sys_simpl. congruence.
  - assert (tvtype th = k) as Hk.
    { unfold enter in H1. destruct (is_batch (tvtype th)) eqn:B;
        injection H1 as <- <-; sys_simpl.
      - congruence.
      - injection HS as <-. destruct (tvtype th); try discriminate; reflexivity. }
    assert (enters c th) as Ha by (now apply enters_iff).
    split.
    + rewrite <- Hk. unfold can_enter in H0. rewrite HN in H0.
      destruct (is_batch (tvtype th)) eqn:B.
      * now apply front_type_iff.
      * assert (tvtype th = Online) as ->
            by (destruct (tvtype th); try discriminate; reflexivity).
        now apply front_type_iff.
    + exists (List.length l1), th. repeat split; auto.
      * rewrite nth_error_app2, Nat.sub_diag; [reflexivity | lia].
      * rewrite nth_error_app2, Nat.sub_diag; [reflexivity | lia].
  - unfold leave in H0. destruct (is_batch (tvtype th));
      [destruct (count c - 1 =? 0)|]; injection H0 as <- <- <-; sys_simpl;
      congruence.
  - unfold leave in H0. destruct (is_batch (tvtype th));
      [destruct (count c - 1 =? 0)|]; try discriminate;
      injection H0 as <- <-; sys_simpl; congruence.
Qed.

Lemma order_of_opening_witness :
  front_has_type empty_online_front Online.
Proof.
  apply (order_of_opening
           (mkSys empty_online_front None [mkThread "O1" Online 1 AtEntry]
              [("S1", Student, default_delay)] [ARRIVED "O1" Online] false)
           (Run 0)
           (mkSys (mkChamber 1 (Some Online) 1 (mkWaiting 0 0 0) [])
              None [mkThread "O1" Online 1 InSession]
              [("S1", Student, default_delay)]
              [ARRIVED "O1" Online; STARTED "O1"] false)
           Online); reflexivity.
Defined.

(** ** Occupancy *)

(** C2. In every state a run reaches between two critical sections, hence
    whenever the lock is free, for a capacity K >= 1: with a Student or Admin
    session open, 0 <= count <= K; with an Online session open, count = 1; with
    the chamber empty, count = 0.  [count] is the number of visitors inside,
    and any two visitors inside have the same type. *)
Theorem occupancy_invariant (k : Z) (seq : list Item) (tr : list Action)
  (s : Sys) :
  1 <= k ->
  run (init k seq) tr = Some s ->
  K (chamber s) = k /\
  match current_type (chamber s) with
  | Some Student | Some Admin =>
      0 <= count (chamber s) <= K (chamber s)
  | Some Online => count (chamber s) = 1
  | None => count (chamber s) = 0
  end /\
  count (chamber s) = occupants (threads s) /\
  (forall th1 th2,
      In th1 (threads s) -> In th2 (threads s) ->
      tpc th1 = InSession -> tpc th2 = InSession ->
      tvtype th1 = tvtype th2).
Proof.
  intros Hk Hrun. destruct (OccInv_run _ _ _ _ Hrun) as [HK Hc Hkind Hn Ho Hb].
  split; [exact HK|]. split; [|split; [exact Hc|]].
  - destruct (current_type (chamber s)) as [[| |]|] eqn:CT.
    + destruct (Hb Student eq_refl eq_refl) as [H1 H2]. specialize (H2 Hk). lia.
    + destruct (Hb Admin eq_refl eq_refl) as [H1 H2]. specialize (H2 Hk). lia.
    + now apply Ho.
    + now apply Hn.
  - intros th1 th2 In1 In2 P1 P2.
    pose proof (Hkind th1 In1 P1) as E1. pose proof (Hkind th2 In2 P2) as E2.
    congruence.
Qed.

Lemma occupancy_invariant_witness :
  K (chamber both_students_inside) = 2 /\
  0 <= count (chamber both_students_inside) <= K (chamber both_students_inside) /\
  count (chamber both_students_inside) = occupants (threads both_students_inside).
Proof.
  destruct (occupancy_invariant 2 two_students_seq enter_one_after_the_other
              both_students_inside) as (HK & Hb & Hc & _).
  - lia.
  - reflexivity.
  - split; [exact HK|]. split; [exact Hb | exact Hc].
Defined.

(** ** Ledger consistency *)

Lemma run_snoc (s : Sys) (tr : list Action) (s1 : Sys) (a : Action) (s' : Sys) :
  run s tr = Some s1 -> exec s1 a = Some s' -> run s (tr ++ [a]) = Some s'.
Proof.
  revert s. induction tr as [|b tr IH]; simpl; intros s.
  - intros [= ->] ->. reflexivity.
  - destruct (exec s b); [apply IH | discriminate].
Qed.

Lemma LedgerInv_absent (s : Sys) (th : Thread) :
  LedgerInv s -> In th (threads s) -> queued (tpc th) = false ->
  forall e, In e (entry_order (chamber s)) -> entry_index e <> tindex th.
Proof.
  intros [Hnd _ Hperm _] Hin Hq e He Heq.
  apply (Permutation_in _ Hperm) in He. unfold waiting_list in He.
  rewrite in_map_iff in He. destruct He as (z & <- & Hz).
  apply filter_In in Hz. destruct Hz as [Hz Hqz].
  assert (z = th) as -> by (apply (NoDup_map_unique tindex (threads s)); auto).
  congruence.
Qed.

Lemma LedgerInv_present (s : Sys) (th : Thread) :
  LedgerInv s -> In th (threads s) -> queued (tpc th) = true ->
  In (thread_record th) (entry_order (chamber s)).
Proof.
  intros [_ _ Hperm _] Hin Hq.
  apply (Permutation_in _ (Permutation_sym Hperm)). unfold waiting_list.
  apply in_map, filter_In. auto.
Qed.

(** C8. In every state a run reaches, [waiting[t]] is the number of ledger
    entries of type [t], for each of the three types; the record of a visitor
    that is inside the chamber is not in the ledger, and the record of a
    visitor that has registered and is not admitted is; every step from such a
    state, registrations and admissions included, leads to a state where the
    counters and the ledger agree again. *)
Theorem ledger_consistency (k : Z) (seq : list Item) (tr : list Action)
  (s : Sys) :
  run (init k seq) tr = Some s ->
  (forall t, waiting_get (waiting (chamber s)) t
             = count_type t (entry_order (chamber s)))
  /\ (forall th, In th (threads s) -> tpc th = InSession ->
        forall e, In e (entry_order (chamber s)) -> entry_index e <> tindex th)
  /\ (forall th, In th (threads s) -> queued (tpc th) = true ->
        In (thread_record th) (entry_order (chamber s)))
  /\ (forall a s', exec s a = Some s' ->
        forall t, waiting_get (waiting (chamber s')) t
                  = count_type t (entry_order (chamber s'))).
Proof.
  intros Hrun. pose proof (LedgerInv_run _ _ _ _ Hrun) as I.
  split; [apply (li_waiting _ I)|]. split; [|split].
  - intros th Hin Hpc. apply LedgerInv_absent; auto. now rewrite Hpc.
  - intros th Hin Hq. now apply LedgerInv_present.
  - intros a s' E. apply (li_waiting s'). eapply LedgerInv_step; eauto.
Qed.

Lemma ledger_consistency_witness :
  waiting_get (waiting (chamber one_inside_one_waiting)) Student
  = count_type Student (entry_order (chamber one_inside_one_waiting))
  /\ In (2, "S2", Student) (entry_order (chamber one_inside_one_waiting)).
Proof.
  destruct (ledger_consistency 1 two_students_seq enter_one_after_the_other
              one_inside_one_waiting eq_refl) as (Hw & _ & Hq & _).
  split.
  - apply Hw.
  - apply (Hq (mkThread "S2" Student 2 Waiting_)); [simpl; auto | reflexivity].
Defined.

(** ** Departure and wake-up *)

(** No step of the program moves a visitor out of [cond.wait()]: the only
    call of [notify_all] sits behind a lock acquisition that cannot succeed. *)
Lemma waiting_thread_never_woken (s : Sys) (a : Action) (s' : Sys) (n : nat)
  (th : Thread) :
  exec s a = Some s' ->
  nth_error (threads s) n = Some th -> tpc th = Waiting_ ->
  nth_error (threads s') n = Some th.
Proof.
  intros E. apply exec_Step in E.
  assert (forall l1 l2 (x y : Thread),
             tpc x <> Waiting_ ->
             nth_error (l1 ++ x :: l2) n = Some th -> tpc th = Waiting_ ->
             nth_error (l1 ++ y :: l2) n = Some th) as Hmid.
  { intros l1 l2 x y Hx Hn Hpc.
    destruct (Nat.lt_ge_cases n (List.length l1)) as [Hlt|Hge].
    - rewrite nth_error_app1 in * by assumption. exact Hn.
    - rewrite nth_error_app2 in * by assumption.
      destruct (n - List.length l1)%nat; simpl in *; [congruence | exact Hn]. }
  destruct E; sys_simpl; intros Hn Hpc; auto.
  - rewrite nth_error_app1; [exact Hn|].
    apply nth_error_Some. congruence.
  - apply (Hmid l1 l2 th0); auto. congruence.
  - apply (Hmid l1 l2 th0); auto. destruct H; congruence.
  - apply (Hmid l1 l2 th0); auto. destruct H; congruence.
  - apply (Hmid l1 l2 th0); auto. congruence.
  - apply (Hmid l1 l2 th0); auto. congruence.
Qed.

(** The lock has an owner between two steps only when that owner is blocked
    at [with chamber.cond[t]:]: the thread waits for the lock it holds itself,
    which nobody else can release. *)
Lemma lock_owner_is_blocked (k : Z) (seq : list Item) (tr : list Action)
  (s : Sys) :
  run (init k seq) tr = Some s ->
  (lock s = None ->
   forall th t, In th (threads s) -> tpc th <> BlockedOnNotify t)
  /\ (forall n, lock s = Some n ->
        exists th t, nth_error (threads s) n = Some th /\
                     tpc th = BlockedOnNotify t).
Proof.
  apply (run_invariant
           (fun s =>
              (lock s = None ->
               forall th t, In th (threads s) -> tpc th <> BlockedOnNotify t)
              /\ (forall n, lock s = Some n ->
                    exists th t, nth_error (threads s) n = Some th /\
                                 tpc th = BlockedOnNotify t))).
  - clear. intros s a s' [Hfree Hheld] E. apply exec_Step in E.
    assert (forall l1 l2 (x : Thread) p,
               (forall th t, In th (l1 ++ x :: l2) -> tpc th <> BlockedOnNotify t) ->
               (forall t, p <> BlockedOnNotify t) ->
               forall th t, In th (l1 ++ set_pc x p :: l2) ->
                            tpc th <> BlockedOnNotify t) as Hmid.
    { intros l1 l2 x p Hall Hp th t Hin. apply (in_mid_inv _ _ x) in Hin.
      destruct Hin as [->|Hin]; [apply Hp | now apply Hall]. }
    destruct E; sys_simpl.
    + split.
      * intros Hl th t Hin. apply in_app_iff in Hin.
        destruct Hin as [Hin|[<-|[]]]; [now apply Hfree | discriminate].
      * intros n Hl. destruct (Hheld n Hl) as (th & t & Hn & Hpc).
        exists th, t. split; [|exact Hpc].
        rewrite nth_error_app1; [exact Hn|]. apply nth_error_Some. congruence.
    + split; [|discriminate]. intros _. apply Hmid; [now apply Hfree | discriminate].
    + split; [|discriminate]. intros _. apply Hmid; [now apply Hfree | discriminate].
    + split; [|discriminate]. intros _. apply Hmid; [now apply Hfree | discriminate].
    + split; [|discriminate]. intros _. apply Hmid; [now apply Hfree | discriminate].
    + split; [discriminate|]. intros n [= <-].
      exists (set_pc th (BlockedOnNotify t)), t. split; [|reflexivity].
      rewrite nth_error_app2, Nat.sub_diag; [reflexivity | lia].
    + split; auto.
  - simpl. split; [intros _ th t [] | discriminate].
Qed.

Lemma stuck_two_threads (c : ChamberState) (o : nat) (t0 t1 : Thread)
  (lg : list Event) :
  terminated (tpc t0) = false ->
  stuck (mkSys c (Some o) [t0; t1] [] lg false).
Proof.
  intros Ht [|tid|]; simpl.
  - reflexivity.
  - destruct tid as [|[|tid]]; simpl; try reflexivity.
    now destruct tid.
  - now rewrite Ht.
Qed.

(** C6 on the scenario "K = 1, online": when O1 leaves while S1 waits,
    [count] and [current_type] are reset and ENDED is logged, but S1 is still
    inside [cond.wait()] afterwards and O1 is blocked at
    [with chamber.cond['S']], holding the lock. *)
Theorem online_departure_wakes_nobody :
  exists s s',
    program_run 1 online_then_student before_online_leaves = Some s /\
    nth_error (threads s) 0 = Some (mkThread "O1" Online 1 InSession) /\
    nth_error (threads s) 1 = Some (mkThread "S1" Student 2 Waiting_) /\
    waiting_get (waiting (chamber s)) Student = 1 /\
    exec s (Run 0) = Some s' /\
    count (chamber s') = 0 /\ current_type (chamber s') = None /\
    log s' = log s ++ [ENDED "O1"] /\
    nth_error (threads s') 1 = Some (mkThread "S1" Student 2 Waiting_) /\
    nth_error (threads s') 0
      = Some (mkThread "O1" Online 1 (BlockedOnNotify Student)) /\
    lock s' = Some 0%nat.
Proof.
  eexists. eexists.
  split; [vm_compute; reflexivity|].
  split; [reflexivity|]. split; [reflexivity|]. split; [reflexivity|].
  split; [vm_compute; reflexivity|].
  repeat split.
Qed.

(** The same on a Student departure: K = 1, S1 inside, S2 waiting. *)
Lemma batch_departure_wakes_nobody :
  exists s',
    exec one_inside_one_waiting (Run 0) = Some s' /\
    count (chamber s') = 0 /\ current_type (chamber s') = None /\
    log s' = log one_inside_one_waiting ++ [LEFT "S1" Student 0] /\
    nth_error (threads s') 1 = Some (mkThread "S2" Student 2 Waiting_) /\
    nth_error (threads s') 0
      = Some (mkThread "S1" Student 1 (BlockedOnNotify Student)) /\
    lock s' = Some 0%nat.
Proof.
  eexists. split; [vm_compute; reflexivity|]. repeat split.
Qed.

(** C3 on the scenario "K = 1, online": the run in which S1 registers
    while O1 holds its meeting ends in a state where no thread can take a step,
    the end of the simulation is never logged, and the log holds two ARRIVED
    lines, one STARTED line and one ENDED line: S1 never enters. *)
Theorem online_then_student_deadlocks :
  exists s,
    program_run 1 online_then_student (before_online_leaves ++ [Run 0%nat])
    = Some s /\
    stuck s /\
    finished s = false /\
    nth_error (threads s) 1 = Some (mkThread "S1" Student 2 Waiting_) /\
    log s = [ARRIVED "O1" Online; STARTED "O1"; ARRIVED "S1" Student; ENDED "O1"] /\
    count_events is_arrived (log s) = 2%nat /\
    count_events is_entered_or_started (log s) = 1%nat /\
    count_events is_left_or_ended (log s) = 1%nat.
Proof.
  eexists. split; [vm_compute; reflexivity|].
  split; [now apply stuck_two_threads|].
  repeat split.
Qed.

(** ** Capacity *)

(** C4, as the code has it.  No capacity is rejected: whether the program
    ends with an error before the first thread depends on the meeting file
    alone, and for every K, K <= 0 included, a file that yields a visitor has
    its first visitor started, registered and logged as ARRIVED. *)
Theorem capacity_not_validated (k : Z) (lines : list string) (lp : string) :
  (forall e, main k lines lp = inl e <-> read_meeting_info lines = inl e)
  /\ (forall name v d rest,
        read_meeting_info lines = inr ((name, v, d) :: rest) ->
        exists s0 s,
          main k lines lp = inr s0 /\
          run s0 [Spawn; Run 0%nat] = Some s /\
          K (chamber s) = k /\
          threads s = [mkThread name v 1 AtEntry] /\
          log s = [ARRIVED name v]).
Proof.
  unfold main, run_from_file, parse_args. simpl. split.
  - intros e. destruct (read_meeting_info lines); split; congruence.
  - intros name v d rest ->. eexists. eexists.
    split; [reflexivity|]. split; [reflexivity|]. repeat split.
Qed.

Lemma capacity_not_validated_witness :
  exists s0 s,
    main (-3) one_student "out.txt" = inr s0 /\
    run s0 [Spawn; Run 0%nat] = Some s /\
    K (chamber s) = -3 /\
    threads s = [mkThread "S1" Student 1 AtEntry] /\
    log s = [ARRIVED "S1" Student].
Proof.
  apply (proj2 (capacity_not_validated (-3) one_student "out.txt")
           "S1" Student default_delay []).
  reflexivity.
Defined.

(** C4 as stated fails: with K = 0 the program starts the visitor thread of
    S1, which registers and even enters the chamber. *)
Lemma capacity_validation_counterexample :
  exists s,
    program_run 0 one_student [Spawn; Run 0; Run 0]%nat = Some s /\
    K (chamber s) = 0 /\
    threads s = [mkThread "S1" Student 1 InSession] /\
    log s = [ARRIVED "S1" Student; ENTERED "S1" Student 1].
Proof.
  eexists. split; [vm_compute; reflexivity|]. repeat split.
Qed.

(** ** The meeting file *)

Lemma read_lines_app (l1 l2 : list string) (items : list Item) :
  read_lines (l1 ++ l2) items
  = match read_lines l1 items with
    | inl e => inl e
    | inr items' => read_lines l2 items'
    end.
Proof.
  revert items. induction l1 as [|ln l1 IH]; simpl; intros items; [reflexivity|].
  destruct (parse_line ln); auto.
Qed.

Lemma read_skip (l1 l2 : list string) (ln : string) :
  parse_line ln = Skip ->
  read_meeting_info (l1 ++ ln :: l2) = read_meeting_info (l1 ++ l2).
Proof.
  intros H. unfold read_meeting_info. rewrite !read_lines_app. simpl.
  now rewrite H.
Qed.

Lemma read_raise (l1 l2 : list string) (ln : string) (e : Exn) :
  (forall x, In x l1 -> forall e', parse_line x <> Raise e') ->
  parse_line ln = Raise e ->
  read_meeting_info (l1 ++ ln :: l2) = inl e.
Proof.
  intros Hl1 H. unfold read_meeting_info. rewrite read_lines_app.
  assert (forall items, exists items', read_lines l1 items = inr items') as Hok.
  { induction l1 as [|x l1 IH]; simpl; intros items; [eauto|].
    destruct (parse_line x) eqn:P.
    - apply IH. intros y Hy. apply Hl1. now right.
    - apply IH. intros y Hy. apply Hl1. now right.
    - exfalso. apply (Hl1 x (or_introl eq_refl) e0 P). }
  destruct (Hok []) as [items' ->]. simpl. now rewrite H.
Qed.

(** The fields returned by [split] are never empty. *)
Lemma split_ws_nonempty (s cur t : string) :
  In t (split_ws s cur) -> t <> EmptyString.
Proof.
  revert cur. induction s as [|c r IH]; simpl; intros cur.
  - destruct cur; simpl; [tauto|]. intros [<-|[]]. discriminate.
  - destruct (is_space c).
    + destruct cur; [apply IH|]. intros [<-|H]; [discriminate | eapply IH; eauto].
    + apply IH.
Qed.

Lemma last_char_upper_nonempty (t : string) :
  t <> EmptyString -> exists ch, last_char (upper t) = Some ch.
Proof.
  induction t as [|c r IH]; [congruence|]. intros _. simpl.
  destruct r as [|c' r']; simpl; [eauto|].
  apply IH. discriminate.
Qed.

(** A string that is one of the three letters is its own last character. *)
Lemma vtype_of_string_last (s : string) (v : vtype) :
  vtype_of_string s = Some v ->
  exists ch, last_char s = Some ch /\
             vtype_of_string (String ch EmptyString) = Some v.
Proof.
  unfold vtype_of_string.
  destruct (String.eqb_spec s "S") as [->|_]; [intros [= <-]; eexists; split; reflexivity|].
  destruct (String.eqb_spec s "A") as [->|_]; [intros [= <-]; eexists; split; reflexivity|].
  destruct (String.eqb_spec s "O") as [->|_]; [intros [= <-]; eexists; split; reflexivity|].
  discriminate.
Qed.

Lemma parse_line_fields (ln name tok : string) (rest : list string) :
  strip ln <> EmptyString -> startswith_hash (strip ln) = false ->
  split (strip ln) = name :: tok :: rest ->
  exists ch,
    last_char (upper tok) = Some ch /\
    parse_line ln
    = match vtype_of_string (String ch EmptyString) with
      | Some v => Parsed (name, v, default_delay)
      | None => Raise (ValueError ("Invalid type in line: " ++ strip ln)%string)
      end.
Proof.
  intros Hne Hh Hs. unfold parse_line.
  destruct (String.eqb_spec (strip ln) "") as [E|_]; [contradiction|].
  rewrite Hh, Hs.
  destruct (last_char_upper_nonempty tok) as [ch Hch].
  { apply (split_ws_nonempty (strip ln) EmptyString). fold (split (strip ln)).
    rewrite Hs. simpl. auto. }
  exists ch. split; [exact Hch|]. rewrite Hch.
  destruct (vtype_of_string (upper tok)) as [v|] eqn:V; [|reflexivity].
  destruct (vtype_of_string_last _ _ V) as (ch' & Hch' & V').
  assert (ch' = ch) as -> by congruence. now rewrite V'.
Qed.

Lemma parse_line_delay (ln : string) (it : Item) :
  parse_line ln = Parsed it -> snd it = default_delay.
Proof.
  unfold parse_line.
  destruct (String.eqb (strip ln) ""); [discriminate|].
  destruct (startswith_hash (strip ln)); [discriminate|].
  destruct (split (strip ln)) as [|name [|tok rest]]; try discriminate.
  destruct (vtype_of_string (upper tok)); [now intros [= <-]|].
  destruct (last_char (upper tok)); [|discriminate].
  destruct (vtype_of_string _); [now intros [= <-] | discriminate].
Qed.

Lemma read_lines_delay (lines : list string) (items res : list Item) :
  Forall (fun it => snd it = default_delay) items ->
  read_lines lines items = inr res ->
  Forall (fun it => snd it = default_delay) res.
Proof.
  revert items. induction lines as [|ln lines IH]; simpl; intros items Hi.
  - now intros [= <-].
  - destruct (parse_line ln) eqn:P; [apply IH; auto| |discriminate].
    apply IH. apply Forall_app. split; [exact Hi|].
    constructor; [|constructor]. now apply (parse_line_delay ln).
Qed.

(** C5, as the code has it.  A line that is blank, or whose first non-blank
    character is [#], is ignored.  On any other line with at least two fields
    the second field is upper-cased and decided by its last character alone:
    the line yields a visitor of that type when the character is S, A or O
    (so the tokens s, S, a, A, o, O are taken whatever their case, and so is
    any longer token ending in one of them), and raises ValueError otherwise.
    The exception of the first such line ends the program before any visitor
    thread exists. *)
Theorem kind_token_parsing (ln : string) :
  (strip ln = EmptyString \/ startswith_hash (strip ln) = true ->
   parse_line ln = Skip /\
   forall l1 l2, read_meeting_info (l1 ++ ln :: l2) = read_meeting_info (l1 ++ l2))
  /\
  (forall name tok rest,
      strip ln <> EmptyString -> startswith_hash (strip ln) = false ->
      split (strip ln) = name :: tok :: rest ->
      (forall v, vtype_of_string (upper tok) = Some v ->
                 parse_line ln = Parsed (name, v, default_delay))
      /\ (forall ch v, last_char (upper tok) = Some ch ->
                       vtype_of_string (String ch EmptyString) = Some v ->
                       parse_line ln = Parsed (name, v, default_delay))
      /\ ((exists e, parse_line ln = Raise e) <->
          (exists ch, last_char (upper tok) = Some ch /\
                      vtype_of_string (String ch EmptyString) = None)))
  /\
  (forall e l1 l2 k lp,
      parse_line ln = Raise e ->
      (forall x, In x l1 -> forall e', parse_line x <> Raise e') ->
      main k (l1 ++ ln :: l2) lp = inl e /\
      forall tr, program_run k (l1 ++ ln :: l2) tr = None).
Proof.
  split; [|split].
  - intros H.
    assert (parse_line ln = Skip) as P.
    { unfold parse_line. destruct H as [-> | H]; [reflexivity|].
      rewrite H. now destruct (String.eqb (strip ln) ""). }
    split; [exact P|]. intros l1 l2. now apply read_skip.
  - intros name tok rest Hne Hh Hs.
    destruct (parse_line_fields ln name tok rest Hne Hh Hs) as (ch & Hch & P).
    split; [|split].
    + intros v V. destruct (vtype_of_string_last _ _ V) as (ch' & Hch' & V').
      assert (ch' = ch) as -> by congruence. now rewrite P, V'.
    + intros ch' v Hch' V'.
      assert (ch' = ch) as -> by congruence. now rewrite P, V'.
    + split.
      * intros [e He]. exists ch. split; [exact Hch|].
        rewrite P in He. now destruct (vtype_of_string (String ch EmptyString)).
      * intros (ch' & Hch' & V'). assert (ch' = ch) as -> by congruence.
        rewrite P, V'. eauto.
  - intros e l1 l2 k lp P Hl1.
    assert (main k (l1 ++ ln :: l2) lp = inl e) as M.
    { unfold main, run_from_file, parse_args. simpl.
      now rewrite (read_raise l1 l2 ln e Hl1 P). }
    split; [exact M|]. intros tr. unfold program_run.
    unfold main, run_from_file, parse_args in *. simpl in *.
    now destruct (read_meeting_info (l1 ++ ln :: l2)).
Qed.

Lemma kind_token_parsing_witness :
  parse_line "   " = Skip
  /\ parse_line "# S1 S" = Skip
  /\ parse_line "Ann o" = Parsed ("Ann", Online, default_delay)
  /\ (exists e, parse_line "Bob Student" = Raise e)
  /\ main 1 ["Ann o"; "Bob Student"; "S1 S"] "out.txt"
     = inl (ValueError "Invalid type in line: Bob Student").
Proof.
  split; [|split; [|split; [|split]]].
  - apply (proj1 (kind_token_parsing "   ")). left. reflexivity.
  - apply (proj1 (kind_token_parsing "# S1 S")). right. reflexivity.
  - apply (proj1 (proj1 (proj2 (kind_token_parsing "Ann o")) "Ann" "o" []
                    ltac:(discriminate) eq_refl eq_refl) Online).
    reflexivity.
  - apply (proj2 (proj2 (proj1 (proj2 (kind_token_parsing "Bob Student"))
                           "Bob" "Student" [] ltac:(discriminate) eq_refl eq_refl))).
    exists "T"%char. split; reflexivity.
  - apply (proj2 (proj2 (kind_token_parsing "Bob Student"))
             (ValueError "Invalid type in line: Bob Student")
             ["Ann o"] ["S1 S"] 1 "out.txt" eq_refl).
    intros x [<-|[]] e'. discriminate.
Defined.

(** C5 as stated fails: the token [xs] is none of the three letters in
    either case, and the line is accepted, as a Student. *)
Lemma malformed_token_accepted :
  split (strip "Bob xs") = ["Bob"; "xs"] /\
  vtype_of_string (upper "xs") = None /\
  parse_line "Bob xs" = Parsed ("Bob", Student, default_delay) /\
  read_meeting_info ["Bob xs"] = inr [("Bob", Student, default_delay)].
Proof. repeat split. Qed.

(** C10. A line with fewer than two whitespace-separated fields contributes
    nothing and raises nothing: the list read is the one read without the
    line.  Every item of the list returned carries the delay 0.05. *)
Theorem short_lines_and_delay (ln : string) (lines : list string)
  (items : list Item) :
  ((List.length (split (strip ln)) < 2)%nat ->
   parse_line ln = Skip /\
   forall l1 l2, read_meeting_info (l1 ++ ln :: l2) = read_meeting_info (l1 ++ l2))
  /\
  (read_meeting_info lines = inr items ->
   Forall (fun it => snd it = Qmake 5 100) items).
Proof.
  split.
  - intros H.
    assert (parse_line ln = Skip) as P.
    { unfold parse_line.
      destruct (String.eqb (strip ln) ""); [reflexivity|].
      destruct (startswith_hash (strip ln)); [reflexivity|].
      destruct (split (strip ln)) as [|name [|tok rest]]; try reflexivity.
      simpl in H. lia. }
    split; [exact P|]. intros l1 l2. now apply read_skip.
  - intros H. apply (read_lines_delay lines [] items); [constructor | exact H].
Qed.

Lemma short_lines_and_delay_witness :
  parse_line "Bob" = Skip
  /\ read_meeting_info ["A1 a"; "Bob"; "S1 s"] = read_meeting_info ["A1 a"; "S1 s"]
  /\ Forall (fun it => snd it = Qmake 5 100)
       [("A1", Admin, default_delay); ("S1", Student, default_delay)].
Proof.
  destruct (short_lines_and_delay "Bob" ["A1 a"; "Bob"; "S1 s"]
              [("A1", Admin, default_delay); ("S1", Student, default_delay)])
    as [Hskip Hdelay].
  split; [|split].
  - apply Hskip. simpl. lia.
  - apply (proj2 (Hskip ltac:(simpl; lia)) ["A1 a"] ["S1 s"]).
  - apply Hdelay. reflexivity.
Defined.

(** * Further properties *)

(** ** The queue and the admission test *)

(** X1. [remove_from_queue_by_index] returns True exactly when an entry
    carries the index; the queue it leaves holds only entries of the old one
    and is shorter by one when it returns True, as long when it returns
    False. *)
Theorem remove_result_size (q : list Entry) (index : Z) :
  (fst (remove_from_queue_by_index q index) = true <->
   exists e, In e q /\ entry_index e = index)
  /\ (forall e, In e (snd (remove_from_queue_by_index q index)) -> In e q)
  /\ List.length q
     = (List.length (snd (remove_from_queue_by_index q index))
        + (if fst (remove_from_queue_by_index q index) then 1 else 0))%nat.
Proof.
  unfold remove_from_queue_by_index.
  destruct (find_position 0 q index) as [p|] eqn:F.
  - destruct (find_position_some _ _ _ _ F) as (l1 & e & l2 & Hq & He & Hl1 & Hp & Hdel).
    subst p. simpl in *. rewrite Hdel. subst q. split; [|split].
    + split; [intros _|reflexivity]. exists e. split; [apply in_elt | exact He].
    + intros x Hx. apply in_app_iff in Hx. apply in_app_iff. simpl. tauto.
    + rewrite !length_app. simpl. lia.
  - simpl. split; [|split].
    + split; [discriminate|]. intros (e & Hin & He).
      rewrite find_position_none in F. exfalso. exact (F e Hin He).
    + auto.
    + lia.
Qed.

Lemma remove_takes_index_out (q : list Entry) (index : Z) :
  NoDup (map entry_index q) ->
  forall e, In e (snd (remove_from_queue_by_index q index)) ->
            entry_index e <> index.
Proof.
  intros Hnd e Hin Heq.
  unfold remove_from_queue_by_index in Hin.
  destruct (find_position 0 q index) as [p|] eqn:F; simpl in Hin.
  - destruct (find_position_some _ _ _ _ F) as (l1 & x & l2 & Hq & Hx & _ & Hp & Hdel).
    subst p. simpl in Hin. rewrite Hdel in Hin. subst q.
    rewrite map_app in Hnd. simpl in Hnd. apply NoDup_remove_2 in Hnd.
    apply Hnd. rewrite <- map_app, Hx, <- Heq. now apply in_map.
  - rewrite find_position_none in F. exact (F e Hin Heq).
Qed.

(** X2. When the entries of the queue carry distinct indices, as those of
    [entry_order] do, a removal leaves no entry with the index: removing the
    same index again returns False and changes nothing. *)
Theorem remove_twice (q : list Entry) (index : Z) :
  NoDup (map entry_index q) ->
  (forall e, In e (snd (remove_from_queue_by_index q index)) ->
             entry_index e <> index)
  /\ remove_from_queue_by_index (snd (remove_from_queue_by_index q index)) index
     = (false, snd (remove_from_queue_by_index q index)).
Proof.
  intros Hnd. split.
  - now apply remove_takes_index_out.
  - apply remove_not_found. now apply remove_takes_index_out.
Qed.

Lemma remove_twice_witness :
  remove_from_queue_by_index (snd (remove_from_queue_by_index distinct_queue 2)) 2
  = (false, snd (remove_from_queue_by_index distinct_queue 2)).
Proof.
  apply (proj2 (remove_twice distinct_queue 2
                  ltac:(cbv [distinct_queue map entry_index fst];
                        repeat (apply NoDup_cons; [simpl; intuition lia|]);
                        apply NoDup_nil))).
Defined.

(** X3. With the chamber occupied, an entry attempt succeeds only for a
    Student or Admin visitor of the occupying type and only while
    [count < K]: nobody enters during an Online meeting, no visitor of another
    type joins a session, and a full session takes nobody. *)
Theorem occupied_chamber_admission (c : ChamberState) (cur v : vtype) :
  current_type c = Some cur ->
  (can_enter c v = true <-> cur = v /\ is_batch v = true /\ count c < K c).
Proof.
  intros CT. unfold can_enter. rewrite CT.
  destruct (is_batch v) eqn:B.
  - rewrite andb_true_iff, Z.ltb_lt.
    destruct (vtype_eqb_spec cur v); intuition congruence.
  - intuition congruence.
Qed.

Lemma occupied_chamber_admission_witness :
  can_enter online_session Online = false
  /\ can_enter online_session Student = false
  /\ can_enter student_session_full Student = false.
Proof.
  pose proof (occupied_chamber_admission online_session Online Online eq_refl) as H1.
  pose proof (occupied_chamber_admission online_session Online Student eq_refl) as H2.
  pose proof (occupied_chamber_admission student_session_full Student Student eq_refl) as H3.
  split; [|split].
  - destruct (can_enter online_session Online); [|reflexivity].
    destruct (proj1 H1 eq_refl) as (_ & B & _). discriminate B.
  - destruct (can_enter online_session Student); [|reflexivity].
    destruct (proj1 H2 eq_refl) as (E & _). discriminate E.
  - destruct (can_enter student_session_full Student); [|reflexivity].
    destruct (proj1 H3 eq_refl) as (_ & _ & L). simpl in L. lia.
Defined.

(** ** Threads are started in file order *)

Lemma nth_error_mid_cases {X : Type} (l1 l2 : list X) (x y z : X) (n : nat) :
  nth_error (l1 ++ y :: l2) n = Some z ->
  (n = List.length l1 /\ z = y) \/ nth_error (l1 ++ x :: l2) n = Some z.
Proof.
  intros H. destruct (Nat.lt_ge_cases n (List.length l1)) as [Hlt|Hge].
  - right. rewrite nth_error_app1 in * by assumption. exact H.
  - rewrite nth_error_app2 in H by assumption.
    destruct (n - List.length l1)%nat eqn:D; simpl in H.
    + left. split; [lia | congruence].
    + right. rewrite nth_error_app2 by assumption. rewrite D. exact H.
Qed.

Lemma map_visitor_mid (l1 l2 : list Thread) (th : Thread) (p : Pc) :
  map thread_visitor (l1 ++ set_pc th p :: l2)
  = map thread_visitor (l1 ++ th :: l2).
Proof. now rewrite !map_app. Qed.

(** The threads started, then the items to start, are the visitors of the
    file; thread n has index n + 1. *)
Lemma start_order (k : Z) (items : list Item)
  (tr : list Action) (s : Sys) :
  run (init k items) tr = Some s ->
  map thread_visitor (threads s) ++ map item_visitor (pending s)
  = map item_visitor items
  /\ (forall n th, nth_error (threads s) n = Some th ->
                   tindex th = Z.of_nat n + 1).
Proof.
  apply (run_invariant
           (fun s =>
              map thread_visitor (threads s) ++ map item_visitor (pending s)
              = map item_visitor items
              /\ (forall n th, nth_error (threads s) n = Some th ->
                               tindex th = Z.of_nat n + 1))).
  - clear. intros s a s' [Hmap Hidx] E. apply exec_Step in E.
    assert (forall l1 l2 (x : Thread) p,
               (forall n th, nth_error (l1 ++ x :: l2) n = Some th ->
                             tindex th = Z.of_nat n + 1) ->
               forall n th, nth_error (l1 ++ set_pc x p :: l2) n = Some th ->
                            tindex th = Z.of_nat n + 1) as Hmid.
    { intros l1 l2 x p Hall n th Hn.
      destruct (nth_error_mid_cases l1 l2 x _ _ _ Hn) as [[-> ->]|Hn'].
      - cbn [set_pc tindex]. apply Hall.
        rewrite nth_error_app2, Nat.sub_diag; [reflexivity | lia].
      - now apply Hall. }
    destruct E; sys_simpl;
      try (split; [now rewrite map_visitor_mid | now apply Hmid]).
    + split.
      * rewrite map_app, <- app_assoc. exact Hmap.
      * intros n th Hn.
        destruct (Nat.lt_ge_cases n (List.length ths)) as [Hlt|Hge].
        -- rewrite nth_error_app1 in Hn by assumption. now apply Hidx.
        -- rewrite nth_error_app2 in Hn by assumption.
           destruct (n - List.length ths)%nat eqn:D; simpl in Hn.
           ++ injection Hn as <-. cbn [tindex]. f_equal. f_equal. lia.
           ++ now destruct n0.
    + split; assumption.
  - simpl. split; [reflexivity|]. intros n th Hn. now destruct n.
Qed.

(** X4. [run_from_file] starts the visitors in the order of the list read
    from the file: at any moment the threads started so far, followed by the
    items still to start, are the visitors of the list, in order; and the
    thread at position n was given the index n + 1. *)
Theorem threads_follow_file_order (k : Z) (items : list Item)
  (tr : list Action) (s : Sys) :
  run (init k items) tr = Some s ->
  map thread_visitor (threads s) ++ map item_visitor (pending s)
  = map item_visitor items
  /\ (forall n th, nth_error (threads s) n = Some th ->
                   tindex th = Z.of_nat n + 1).
Proof. apply start_order. Qed.

Lemma threads_follow_file_order_witness :
  map thread_visitor (threads one_inside_one_waiting)
  ++ map item_visitor (pending one_inside_one_waiting)
  = map item_visitor two_students_seq.
Proof.
  apply (threads_follow_file_order 1 two_students_seq enter_one_after_the_other
           one_inside_one_waiting eq_refl).
Defined.

(** ** The log and the positions of the threads *)

Lemma count_pc_app (f : Pc -> bool) (l1 l2 : list Thread) :
  count_pc f (l1 ++ l2) = (count_pc f l1 + count_pc f l2)%nat.
Proof. unfold count_pc. now rewrite filter_app, length_app. Qed.

Lemma count_pc_cons (f : Pc -> bool) (th : Thread) (l : list Thread) :
  count_pc f (th :: l) = ((if f (tpc th) then 1 else 0) + count_pc f l)%nat.
Proof. unfold count_pc. cbn [filter]. now destruct (f (tpc th)). Qed.

Lemma count_pc_mid (f : Pc -> bool) (l1 l2 : list Thread) (th : Thread) :
  count_pc f (l1 ++ th :: l2)
  = (count_pc f l1 + (if f (tpc th) then 1 else 0) + count_pc f l2)%nat.
Proof. rewrite count_pc_app, count_pc_cons. lia. Qed.

Lemma count_pc_le (f : Pc -> bool) (l : list Thread) :
  (count_pc f l <= List.length l)%nat.
Proof. unfold count_pc. apply filter_length_le. Qed.

Lemma count_pc_all (f : Pc -> bool) (l : list Thread) :
  (forall th, In th l -> f (tpc th) = true) -> count_pc f l = List.length l.
Proof.
  induction l as [|a l IH]; [reflexivity|]. intros H.
  rewrite count_pc_cons, (H a (or_introl eq_refl)), IH; [reflexivity|].
  intros th Hin. apply H. now right.
Qed.

Lemma count_pc_none (f : Pc -> bool) (l : list Thread) :
  (forall th, In th l -> f (tpc th) = false) -> count_pc f l = O.
Proof.
  induction l as [|a l IH]; [reflexivity|]. intros H.
  rewrite count_pc_cons, (H a (or_introl eq_refl)), IH; [reflexivity|].
  intros th Hin. apply H. now right.
Qed.

(** Two disjoint sets of positions. *)
Lemma count_pc_split (f g h : Pc -> bool) (l : list Thread) :
  (forall p, f p = g p || h p) -> (forall p, g p && h p = false) ->
  count_pc f l = (count_pc g l + count_pc h l)%nat.
Proof.
  intros Hf Hd. induction l as [|a l IH]; [reflexivity|].
  rewrite !count_pc_cons, IH, Hf. specialize (Hd (tpc a)).
  destruct (g (tpc a)), (h (tpc a)); simpl in *; try discriminate; lia.
Qed.

Lemma count_events_snoc (p : Event -> bool) (lg : list Event) (e : Event) :
  count_events p (lg ++ [e])
  = (count_events p lg + (if p e then 1 else 0))%nat.
Proof.
  unfold count_events. rewrite filter_app, length_app. cbn [filter].
  now destruct (p e).
Qed.

Lemma register_event (c c' : ChamberState) (name : string) (v : vtype)
  (index : Z) (ev : Event) :
  register c name v index = (c', ev) -> ev = ARRIVED name v.
Proof. unfold register. now intros [= _ <-]. Qed.

Lemma enter_event (c c' : ChamberState) (name : string) (v : vtype)
  (index : Z) (ev : Event) :
  enter c name v index = (c', ev) ->
  ev = ENTERED name v (count c + 1) \/ ev = STARTED name.
Proof.
  unfold enter. destruct (is_batch v); intros [= _ <-]; auto.
Qed.

Lemma leave_event (c c' : ChamberState) (name : string) (v : vtype)
  (ev : Event) (loop : bool) :
  leave c name v = (c', ev, loop) ->
  ev = LEFT name v (count c - 1) \/ ev = ENDED name.
Proof.
  unfold leave. destruct (is_batch v); [destruct (count c - 1 =? 0)|];
    intros [= _ <- _]; auto.
Qed.

Lemma count_pc_nil (f : Pc -> bool) : count_pc f [] = O.
Proof. reflexivity. Qed.

Ltac logc :=
  rewrite ?count_events_snoc, ?count_pc_mid, ?count_pc_app, ?count_pc_cons,
    ?count_pc_nil;
  cbn [tpc set_pc has_registered has_entered has_left is_arrived
       is_entered_or_started is_left_or_ended is_finished] in *;
  try lia.

Lemma LogInv_step (s : Sys) (a : Action) (s' : Sys) :
  LogInv s -> exec s a = Some s' -> LogInv s'.
Proof.
  intros [Ha He Hl Hf] E. apply exec_Step in E.
  destruct E; sys_simpl; rewrite ?count_pc_mid in *.
  - constructor; sys_simpl; auto; logc.
  - apply register_event in H0. subst ev. rewrite H in *.
    constructor; sys_simpl; auto; logc.
  - constructor; sys_simpl; auto; destruct H as [E|E]; rewrite E in *; logc.
  - apply enter_event in H1.
    constructor; sys_simpl; auto;
      destruct H as [E|E]; rewrite E in *; destruct H1 as [-> | ->]; logc.
  - apply leave_event in H0. rewrite H in *.
    constructor; sys_simpl; auto; destruct H0 as [-> | ->]; logc.
  - apply leave_event in H0. rewrite H in *.
    constructor; sys_simpl; auto; destruct H0 as [-> | ->]; logc.
  - constructor; sys_simpl; auto; logc.
Qed.

Lemma LogInv_run (k : Z) (items : list Item) (tr : list Action) (s : Sys) :
  run (init k items) tr = Some s -> LogInv s.
Proof.
  apply (run_invariant LogInv).
  - intros s0 a s1. apply LogInv_step.
  - constructor; reflexivity.
Qed.

Lemma occupants_count_pc (ths : list Thread) :
  occupants ths = Z.of_nat (count_pc in_session ths).
Proof. reflexivity. Qed.

Lemma waiting_list_length (ths : list Thread) :
  List.length (waiting_list ths) = count_pc queued ths.
Proof. unfold waiting_list, count_pc. now rewrite length_map. Qed.

(** X5. At any moment of a run the log accounts for the chamber: [count] is
    the number of ENTERED and STARTED lines minus the number of LEFT and ENDED
    lines, the ledger holds as many entries as there are ARRIVED lines without
    an ENTERED or STARTED line, and no more visitors have arrived than the
    file lists. *)
Theorem log_accounts_for_chamber (k : Z) (items : list Item)
  (tr : list Action) (s : Sys) :
  run (init k items) tr = Some s ->
  count (chamber s)
  = Z.of_nat (count_events is_entered_or_started (log s))
    - Z.of_nat (count_events is_left_or_ended (log s))
  /\ Z.of_nat (List.length (entry_order (chamber s)))
     = Z.of_nat (count_events is_arrived (log s))
       - Z.of_nat (count_events is_entered_or_started (log s))
  /\ (count_events is_left_or_ended (log s)
      <= count_events is_entered_or_started (log s)
      <= count_events is_arrived (log s))%nat
  /\ (count_events is_arrived (log s) <= List.length items)%nat.
Proof.
  intros Hrun.
  destruct (LogInv_run _ _ _ _ Hrun) as [Ha He Hl _].
  destruct (OccInv_run _ _ _ _ Hrun) as [_ Hc _ _ _ _].
  destruct (LedgerInv_run _ _ _ _ Hrun) as [_ _ Hperm _].
  destruct (start_order _ _ _ _ Hrun) as [Hmap _].
  rewrite Ha, He, Hl, Hc, occupants_count_pc.
  rewrite (Permutation_length Hperm), waiting_list_length.
  assert (count_pc has_entered (threads s)
          = (count_pc in_session (threads s) + count_pc has_left (threads s))%nat) as E1
      by (apply count_pc_split; intros []; reflexivity).
  assert (count_pc has_registered (threads s)
          = (count_pc queued (threads s) + count_pc has_entered (threads s))%nat) as E2
      by (apply count_pc_split; intros []; reflexivity).
  pose proof (count_pc_le has_registered (threads s)) as L.
  assert (List.length (threads s) + List.length (pending s) = List.length items)%nat as E3.
  { apply (f_equal (@List.length _)) in Hmap.
    now rewrite length_app, !length_map in Hmap. }
  repeat split; lia.
Qed.

Lemma log_accounts_for_chamber_witness :
  count (chamber one_inside_one_waiting)
  = Z.of_nat (count_events is_entered_or_started (log one_inside_one_waiting))
    - Z.of_nat (count_events is_left_or_ended (log one_inside_one_waiting)).
Proof.
  apply (log_accounts_for_chamber 1 two_students_seq enter_one_after_the_other
           one_inside_one_waiting eq_refl).
Defined.

(** ** Counts printed in the log *)

Lemma printed_counts_step (k : Z) (s : Sys) (a : Action) (s' : Sys) :
  1 <= k -> OccInv k s -> Forall (count_in_range k) (log s) ->
  exec s a = Some s' -> Forall (count_in_range k) (log s').
Proof.
  intros Hk [HK Hc Hkind Hn Ho Hb] HF E. apply exec_Step in E.
  destruct E; sys_simpl; auto; apply Forall_app; (split; [exact HF|]);
    constructor; auto.
  - apply register_event in H0. now subst ev.
  - unfold can_enter in H0. unfold enter in H1.
    destruct (is_batch (tvtype th)) eqn:B; injection H1 as <- <-; [|exact I].
    destruct (current_type c) as [cur|] eqn:CT.
    + apply andb_true_iff in H0. destruct H0 as [Hcur Hlt].
      destruct (vtype_eqb_spec cur (tvtype th)) as [->|]; [|discriminate].
      apply Z.ltb_lt in Hlt. destruct (Hb _ B eq_refl) as [Hge _].
      cbn [count_in_range]. lia.
    + specialize (Hn eq_refl). cbn [count_in_range]. lia.
  - assert (current_type c = Some (tvtype th)) as CT
        by (apply Hkind; [apply in_elt | exact H]).
    unfold leave in H0. destruct (is_batch (tvtype th)) eqn:B.
    + destruct (Hb _ B CT) as [Hge Hle]. specialize (Hle Hk).
      destruct (count c - 1 =? 0); injection H0 as <- <- <-;
        cbn [count_in_range]; lia.
    + injection H0 as <- <- <-. exact I.
  - assert (current_type c = Some (tvtype th)) as CT
        by (apply Hkind; [apply in_elt | exact H]).
    unfold leave in H0. destruct (is_batch (tvtype th)) eqn:B.
    + destruct (Hb _ B CT) as [Hge Hle]. specialize (Hle Hk).
      destruct (count c - 1 =? 0); injection H0 as <- <-;
        cbn [count_in_range]; lia.
    + injection H0 as <- <-. exact I.
  - exact I.
Qed.

(** X6. For a capacity K >= 1, the count printed in an ENTERED line is
    between 1 and K, and the count printed in a LEFT line is between 0 and
    K - 1. *)
Theorem printed_counts_in_range (k : Z) (items : list Item)
  (tr : list Action) (s : Sys) :
  1 <= k ->
  run (init k items) tr = Some s ->
  forall name v cnt,
    (In (ENTERED name v cnt) (log s) -> 1 <= cnt <= k)
    /\ (In (LEFT name v cnt) (log s) -> 0 <= cnt <= k - 1).
Proof.
  intros Hk Hrun.
  assert (OccInv k s /\ Forall (count_in_range k) (log s)) as [_ HF].
  { revert Hrun.
    apply (run_invariant (fun s => OccInv k s /\ Forall (count_in_range k) (log s))).
    - intros s0 a s1 [HI HF] E. split.
      + eapply OccInv_step; eauto.
      + eapply printed_counts_step; eauto.
    - split; [apply OccInv_init | constructor]. }
  rewrite Forall_forall in HF. intros name v cnt. split; intros Hin.
  - apply (HF _ Hin).
  - apply (HF _ Hin).
Qed.

Lemma printed_counts_in_range_witness :
  1 <= 2 <= 2.
Proof.
  apply (proj1 (printed_counts_in_range 2 two_students_seq
                  enter_one_after_the_other both_students_inside
                  ltac:(lia) eq_refl "S2" Student 2)).
  simpl. auto 10.
Defined.

(** ** Visitors that wait, runs that end, runs that hang *)

(** X7. A visitor that has called [cond.wait()] is never woken: in every
    later state of the run its thread is still inside the call. *)
Theorem waiting_visitor_stays_waiting (s : Sys) (tr : list Action) (s' : Sys)
  (n : nat) (th : Thread) :
  run s tr = Some s' ->
  nth_error (threads s) n = Some th -> tpc th = Waiting_ ->
  nth_error (threads s') n = Some th.
Proof.
  revert s. induction tr as [|a tr IH]; simpl; intros s.
  - now intros [= <-].
  - destruct (exec s a) as [s1|] eqn:E; [|discriminate].
    intros Hrun Hn Hpc. apply (IH s1 Hrun); [|exact Hpc].
    eapply waiting_thread_never_woken; eauto.
Qed.

Lemma waiting_visitor_stays_waiting_witness :
  exists s',
    run one_inside_one_waiting [Run 0%nat] = Some s' /\
    nth_error (threads s') 1 = Some (mkThread "S2" Student 2 Waiting_).
Proof.
  eexists. split; [reflexivity|].
  eapply (waiting_visitor_stays_waiting one_inside_one_waiting [Run 0%nat]);
    reflexivity.
Defined.

(** No thread is ever ended by an exception or woken, and the end of the
    simulation is logged only when every thread has returned. *)
Lemma finished_means_done (k : Z) (items : list Item) (tr : list Action)
  (s : Sys) :
  run (init k items) tr = Some s ->
  (forall th, In th (threads s) -> tpc th <> Crashed /\ tpc th <> Notified)
  /\ (finished s = true ->
      pending s = [] /\ forall th, In th (threads s) -> tpc th = Done).
Proof.
  apply (run_invariant
           (fun s =>
              (forall th, In th (threads s) ->
                          tpc th <> Crashed /\ tpc th <> Notified)
              /\ (finished s = true ->
                  pending s = [] /\ forall th, In th (threads s) -> tpc th = Done))).
  - clear. intros s a s' [Hok Hfin] E. apply exec_Step in E.
    assert (forall l1 l2 (x : Thread) p,
               (forall th, In th (l1 ++ x :: l2) ->
                           tpc th <> Crashed /\ tpc th <> Notified) ->
               p <> Crashed -> p <> Notified ->
               forall th, In th (l1 ++ set_pc x p :: l2) ->
                          tpc th <> Crashed /\ tpc th <> Notified) as Hmid.
    { intros l1 l2 x p Hall H1 H2 th Hin. apply (in_mid_inv _ _ x) in Hin.
      destruct Hin as [->|Hin]; [now split | now apply Hall]. }
    destruct E; sys_simpl.
    + split.
      * intros th Hin. apply in_app_iff in Hin.
        destruct Hin as [Hin|[<-|[]]]; [now apply Hok | split; discriminate].
      * intros Hf. destruct (Hfin Hf) as [Hp _]. discriminate Hp.
    + split; [apply Hmid; auto; discriminate|].
      intros Hf. destruct (Hfin Hf) as [_ Hd].
      specialize (Hd th (in_elt _ _ _)). congruence.
    + split; [apply Hmid; auto; discriminate|].
      intros Hf. destruct (Hfin Hf) as [_ Hd].
      specialize (Hd th (in_elt _ _ _)). destruct H; congruence.
    + split; [apply Hmid; auto; discriminate|].
      intros Hf. destruct (Hfin Hf) as [_ Hd].
      specialize (Hd th (in_elt _ _ _)). destruct H; congruence.
    + split; [apply Hmid; auto; discriminate|].
      intros Hf. destruct (Hfin Hf) as [_ Hd].
      specialize (Hd th (in_elt _ _ _)). congruence.
    + split; [apply Hmid; auto; discriminate|].
      intros Hf. destruct (Hfin Hf) as [_ Hd].
      specialize (Hd th (in_elt _ _ _)). congruence.
    + split; [exact Hok|]. intros _. split; [reflexivity|].
      intros th Hin. rewrite forallb_forall in H. specialize (H th Hin).
      destruct (Hok th Hin) as [Hc _]. destruct (tpc th); try discriminate;
        [contradiction | reflexivity].
  - simpl. split; [intros th [] | discriminate].
Qed.

(** X8. When "Simulation finished." has been logged, every visitor of the
    file has been started and has returned, each has logged one ARRIVED line,
    one ENTERED or STARTED line and one LEFT or ENDED line, the chamber is
    empty, the ledger is empty, the lock is free, and nothing more happens. *)
Theorem finished_run_served_everyone (k : Z) (items : list Item)
  (tr : list Action) (s : Sys) :
  run (init k items) tr = Some s ->
  finished s = true ->
  pending s = []
  /\ (forall th, In th (threads s) -> tpc th = Done)
  /\ count_events is_arrived (log s) = List.length items
  /\ count_events is_entered_or_started (log s) = List.length items
  /\ count_events is_left_or_ended (log s) = List.length items
  /\ count_events is_finished (log s) = 1%nat
  /\ count (chamber s) = 0
  /\ entry_order (chamber s) = []
  /\ lock s = None
  /\ stuck s.
Proof.
  intros Hrun Hf.
  destruct (finished_means_done _ _ _ _ Hrun) as [_ Hfin].
  destruct (Hfin Hf) as [Hp Hd].
  destruct (LogInv_run _ _ _ _ Hrun) as [Ha He Hl Hfi].
  destruct (OccInv_run _ _ _ _ Hrun) as [_ Hc _ _ _ _].
  destruct (LedgerInv_run _ _ _ _ Hrun) as [_ _ Hperm _].
  destruct (start_order _ _ _ _ Hrun) as [Hmap _].
  assert (List.length (threads s) = List.length items) as Hlen.
  { apply (f_equal (@List.length _)) in Hmap.
    rewrite length_app, !length_map, Hp in Hmap. simpl in Hmap. lia. }
  assert (forall f, f Done = true -> count_pc f (threads s) = List.length items) as Hall.
  { intros f Hfd. rewrite <- Hlen. apply count_pc_all.
    intros th Hin. now rewrite (Hd th Hin). }
  assert (forall f, f Done = false -> count_pc f (threads s) = O) as Hnone.
  { intros f Hfd. apply count_pc_none. intros th Hin. now rewrite (Hd th Hin). }
  split; [exact Hp|]. split; [exact Hd|].
  split; [rewrite Ha; now apply Hall|].
  split; [rewrite He; now apply Hall|].
  split; [rewrite Hl; now apply Hall|].
  split; [now rewrite Hfi, Hf|].
  split; [rewrite Hc, occupants_count_pc, Hnone; reflexivity|].
  assert (entry_order (chamber s) = []) as Hq.
  { apply Permutation_nil. apply Permutation_sym.
    assert (waiting_list (threads s) = []) as <-; [|exact Hperm].
    apply length_zero_iff_nil. rewrite waiting_list_length. now apply Hnone. }
  split; [exact Hq|].
  assert (lock s = None) as Hlk.
  { destruct (lock s) as [n|] eqn:L; [|reflexivity].
    destruct (proj2 (lock_owner_is_blocked _ _ _ _ Hrun) n L) as (th & t & Hn & Hpc).
    apply nth_error_In in Hn. rewrite (Hd th Hn) in Hpc. discriminate. }
  split; [exact Hlk|].
  intros [|tid|]; simpl.
  - now rewrite Hp.
  - destruct (nth_error (threads s) tid) as [th|] eqn:Hn; [|reflexivity].
    apply nth_error_In in Hn. unfold run_thread.
    rewrite Hlk, (Hd th Hn). reflexivity.
  - rewrite Hp, Hf. now rewrite andb_false_r.
Qed.

Lemma finished_run_served_everyone_witness :
  count_events is_left_or_ended (log after_students_served)
  = List.length two_students_seq
  /\ stuck after_students_served.
Proof.
  destruct (finished_run_served_everyone 2 two_students_seq students_served
              after_students_served eq_refl eq_refl)
    as (_ & _ & _ & _ & Hl & _ & _ & _ & _ & Hs).
  split; [exact Hl | exact Hs].
Defined.

(** X9. Once a thread is blocked on the lock it holds, the run hangs: after
    any continuation the lock has the same owner, the chamber and the log are
    what they were, the end of the simulation is not logged, and the only
    steps taken were starts of further visitor threads. *)
Theorem blocked_run_hangs (k : Z) (items : list Item) (tr : list Action)
  (s : Sys) (n : nat) (tr' : list Action) (s' : Sys) :
  run (init k items) tr = Some s ->
  lock s = Some n ->
  run s tr' = Some s' ->
  lock s' = Some n /\ chamber s' = chamber s /\ log s' = log s
  /\ finished s' = false /\ Forall (fun a => a = Spawn) tr'.
Proof.
  revert tr s. induction tr' as [|a tr' IH]; simpl; intros tr s Hrun Hl.
  - intros [= <-]. repeat split; auto.
    destruct (finished s) eqn:Hf; [|reflexivity].
    destruct (proj2 (finished_means_done _ _ _ _ Hrun) Hf) as [_ Hd].
    destruct (proj2 (lock_owner_is_blocked _ _ _ _ Hrun) n Hl) as (th & t & Hn & Hpc).
    apply nth_error_In in Hn. rewrite (Hd th Hn) in Hpc. discriminate.
  - destruct (exec s a) as [s1|] eqn:E; [|discriminate]. intros Hrun'.
    destruct (proj2 (lock_owner_is_blocked _ _ _ _ Hrun) n Hl) as (th & t & Hn & Hpc).
    assert (a = Spawn /\ lock s1 = Some n /\ chamber s1 = chamber s
            /\ log s1 = log s) as (-> & Hl1 & Hc1 & Hg1).
    { pose proof E as E'. apply exec_Step in E'.
      destruct E'; sys_simpl; try discriminate.
      - auto.
      - exfalso. rewrite forallb_forall in H.
        apply nth_error_In in Hn. specialize (H th Hn).
        rewrite Hpc in H. discriminate. }
    destruct (IH (tr ++ [Spawn]) s1 (run_snoc _ _ _ _ _ Hrun E) Hl1 Hrun')
      as (H1 & H2 & H3 & H4 & H5).
    repeat split; auto; congruence.
Qed.

Lemma blocked_run_hangs_witness :
  lock blocked_after_third = Some 0%nat
  /\ log blocked_after_third = log blocked_before_third
  /\ finished blocked_after_third = false.
Proof.
  destruct (blocked_run_hangs 1 three_students_seq
              (enter_one_after_the_other ++ [Run 0%nat])
              blocked_before_third 0%nat [Spawn] blocked_after_third
              eq_refl eq_refl eq_refl)
    as (H1 & _ & H3 & H4 & _).
  split; [exact H1|]. split; [exact H3 | exact H4].
Defined.

(** ** When a departure blocks *)

Lemma count_type_positive (q : list Entry) (t : vtype) :
  0 < count_type t q -> q <> [].
Proof. intros H ->. unfold count_type in H. simpl in H. lia. Qed.

Lemma count_type_all_zero (q : list Entry) :
  (forall t, count_type t q <= 0) -> q = [].
Proof.
  destruct q as [|e r]; [reflexivity|]. intros H. exfalso.
  specialize (H (entry_vtype e)). rewrite count_type_cons, vtype_eqb_refl in H.
  pose proof (count_type_nonneg (entry_vtype e) r). lia.
Qed.

(** X10. A visitor that leaves returns from [visitor] unless its departure
    empties the chamber while the ledger is not empty; in that case, and only
    then, its thread blocks inside the departure, holding the lock. *)
Theorem departure_outcome (k : Z) (items : list Item) (tr : list Action)
  (s : Sys) (tid : nat) (th : Thread) (s' : Sys) :
  run (init k items) tr = Some s ->
  nth_error (threads s) tid = Some th -> tpc th = InSession ->
  exec s (Run tid) = Some s' ->
  (lock s' = Some tid <->
   current_type (chamber s') = None /\ entry_order (chamber s') <> [])
  /\ (lock s' = None <->
      nth_error (threads s') tid = Some (set_pc th Done))
  /\ (lock s' = None \/ lock s' = Some tid).
Proof.
  intros Hrun Hn Hpc E.
  destruct (OccInv_run _ _ _ _ Hrun) as [_ _ Hkind _ _ _].
  destruct (LedgerInv_run _ _ _ _ Hrun) as [_ _ _ Hw].
  apply exec_Step in E. remember (Run tid) as a eqn:Ha.
  destruct E; sys_simpl; try discriminate; injection Ha as <-;
    rewrite nth_error_app2, Nat.sub_diag in Hn by lia;
    injection Hn as ->; try congruence; try (destruct H; congruence).
  - (* returns *)
    assert (current_type c = Some (tvtype th)) as CT
        by (apply Hkind; [apply in_elt | exact Hpc]).
    assert (current_type c' <> None \/ entry_order c' = []) as Hout.
    { unfold leave in H0. destruct (is_batch (tvtype th));
        [destruct (count c - 1 =? 0)|]; injection H0 as <- <- <-; sys_simpl.
      - right. destruct H1 as [|H1]; [discriminate|].
        apply count_type_all_zero. intros t. rewrite <- Hw. apply H1.
      - left. congruence.
      - right. destruct H1 as [|H1]; [discriminate|].
        apply count_type_all_zero. intros t. rewrite <- Hw. apply H1. }
    split; [|split].
    + split; [discriminate|]. intros [H2 H3]. destruct Hout; contradiction.
    + split; [intros _|reflexivity].
      rewrite nth_error_app2, Nat.sub_diag; [reflexivity | lia].
    + now left.
  - (* blocks *)
    assert (current_type c' = None /\ entry_order c' <> []) as Hout.
    { unfold leave in H0. destruct (is_batch (tvtype th));
        [destruct (count c - 1 =? 0)|]; try discriminate;
        injection H0 as <- <-; sys_simpl; (split; [reflexivity|]);
        apply (count_type_positive _ t); rewrite <- Hw; exact H1. }
    split; [|split].
    + split; [intros _; exact Hout | reflexivity].
    + split; [discriminate|].
      rewrite nth_error_app2, Nat.sub_diag by lia. simpl. intros [= E].
    + now right.
Qed.

Lemma departure_outcome_witness :
  lock student_blocked = Some 0%nat <->
  current_type (chamber student_blocked) = None
  /\ entry_order (chamber student_blocked) <> [].
Proof.
  apply (departure_outcome 1 two_students_seq enter_one_after_the_other
           one_inside_one_waiting 0 (mkThread "S1" Student 1 InSession)
           student_blocked eq_refl eq_refl eq_refl eq_refl).
Defined.

(** ** The ledger keeps the order of arrival *)

Lemma Subseq_refl {X : Type} (l : list X) : Subseq l l.
Proof. induction l; [apply Subseq_nil | now apply Subseq_keep]. Qed.

Lemma Subseq_trans {X : Type} (l1 l2 l3 : list X) :
  Subseq l1 l2 -> Subseq l2 l3 -> Subseq l1 l3.
Proof.
  intros H12 H23. revert l1 H12.
  induction H23 as [|x l2 l3 H IH|x l2 l3 H IH]; intros l1 H12.
  - exact H12.
  - apply Subseq_skip. now apply IH.
  - inversion H12; subst.
    + apply Subseq_skip. now apply IH.
    + apply Subseq_keep. now apply IH.
Qed.

Lemma Subseq_snoc {X : Type} (l1 l2 : list X) (x : X) :
  Subseq l1 l2 -> Subseq (l1 ++ [x]) (l2 ++ [x]).
Proof.
  induction 1 as [|y l1 l2 H IH|y l1 l2 H IH]; simpl.
  - apply Subseq_keep, Subseq_nil.
  - now apply Subseq_skip.
  - now apply Subseq_keep.
Qed.

Lemma Subseq_drop_mid {X : Type} (l1 l2 : list X) (x : X) :
  Subseq (l1 ++ l2) (l1 ++ x :: l2).
Proof.
  induction l1; simpl; [apply Subseq_skip, Subseq_refl | now apply Subseq_keep].
Qed.

Lemma Subseq_map {X Y : Type} (f : X -> Y) (l1 l2 : list X) :
  Subseq l1 l2 -> Subseq (map f l1) (map f l2).
Proof.
  induction 1 as [|y l1 l2 H IH|y l1 l2 H IH]; simpl.
  - apply Subseq_nil.
  - now apply Subseq_skip.
  - now apply Subseq_keep.
Qed.

Lemma remove_subseq (q : list Entry) (index : Z) :
  Subseq (snd (remove_from_queue_by_index q index)) q.
Proof.
  unfold remove_from_queue_by_index.
  destruct (find_position 0 q index) as [p|] eqn:F; [|apply Subseq_refl].
  destruct (find_position_some _ _ _ _ F) as (l1 & e & l2 & Hq & _ & _ & Hp & Hdel).
  subst p. simpl in *. rewrite Hdel, Hq. apply Subseq_drop_mid.
Qed.

Lemma arrivals_app (l1 l2 : list Event) :
  arrivals (l1 ++ l2) = arrivals l1 ++ arrivals l2.
Proof.
  induction l1 as [|e l1 IH]; [reflexivity|].
  destruct e; simpl; now rewrite IH.
Qed.

(** X11. The ledger lists waiting visitors in the order of their ARRIVED
    lines: the visitors of [entry_order], front first, are a subsequence of
    the visitors of the ARRIVED lines of the log. *)
Theorem ledger_in_arrival_order (k : Z) (items : list Item)
  (tr : list Action) (s : Sys) :
  run (init k items) tr = Some s ->
  Subseq (map entry_visitor (entry_order (chamber s))) (arrivals (log s)).
Proof.
  apply (run_invariant
           (fun s => Subseq (map entry_visitor (entry_order (chamber s)))
                       (arrivals (log s)))).
  - clear. intros s a s' HS E. apply exec_Step in E.
    destruct E; sys_simpl; auto.
    + unfold register in H0. injection H0 as <- <-. sys_simpl.
      rewrite map_app, arrivals_app. simpl. now apply Subseq_snoc.
    + rewrite arrivals_app.
      assert (arrivals [ev] = []) as ->
          by (apply enter_event in H1; destruct H1 as [-> | ->]; reflexivity).
      rewrite app_nil_r.
      assert (entry_order c'
              = snd (remove_from_queue_by_index (entry_order c) (tindex th))) as ->
          by (unfold enter in H1; destruct (is_batch (tvtype th));
              injection H1 as <- <-; reflexivity).
      eapply Subseq_trans; [apply Subseq_map, remove_subseq | exact HS].
    + rewrite arrivals_app.
      assert (arrivals [ev] = []) as ->
          by (pose proof H0 as H0'; apply leave_event in H0';
              destruct H0' as [-> | ->]; reflexivity).
      rewrite app_nil_r.
      assert (entry_order c' = entry_order c) as ->; [|exact HS].
      unfold leave in H0. destruct (is_batch (tvtype th));
        [destruct (count c - 1 =? 0)|]; injection H0 as <- <- <-; reflexivity.
    + rewrite arrivals_app.
      assert (arrivals [ev] = []) as ->
          by (pose proof H0 as H0'; apply leave_event in H0';
              destruct H0' as [-> | ->]; reflexivity).
      rewrite app_nil_r.
      assert (entry_order c' = entry_order c) as ->; [|exact HS].
      unfold leave in H0. destruct (is_batch (tvtype th));
        [destruct (count c - 1 =? 0)|]; try discriminate;
        injection H0 as <- <-; reflexivity.
    + rewrite arrivals_app. simpl. now rewrite app_nil_r.
  - simpl. constructor.
Qed.

Lemma ledger_in_arrival_order_witness :
  Subseq (map entry_visitor (entry_order (chamber one_inside_one_waiting)))
    (arrivals (log one_inside_one_waiting)).
Proof.
  apply (ledger_in_arrival_order 1 two_students_seq enter_one_after_the_other
           one_inside_one_waiting eq_refl).
Defined.

(** ** Runs without contention *)

Lemma run_app (s : Sys) (t1 t2 : list Action) :
  run s (t1 ++ t2)
  = match run s t1 with Some s1 => run s1 t2 | None => None end.
Proof.
  revert s. induction t1 as [|a t1 IH]; simpl; intros s; [reflexivity|].
  destruct (exec s a); [apply IH | reflexivity].
Qed.

Lemma nth_error_last {X : Type} (l : list X) (x : X) :
  nth_error (l ++ [x]) (List.length l) = Some x.
Proof. rewrite nth_error_app2, Nat.sub_diag; [reflexivity | lia]. Qed.

Lemma update_nth_last {X : Type} (l : list X) (x y : X) :
  update_nth (List.length l) y (l ++ [x]) = l ++ [y].
Proof. apply update_nth_app. Qed.

Lemma remove_single (idx : Z) (name : string) (v : vtype) :
  remove_from_queue_by_index [(idx, name, v)] idx = (true, []).
Proof.
  unfold remove_from_queue_by_index. simpl. now rewrite Z.eqb_refl.
Qed.

(** One visitor served on an empty chamber, whatever the other threads. *)
Lemma serve_one (k : Z) (ths : list Thread) (name : string) (v : vtype)
  (d : Q) (rest : list Item) (lg : list Event) :
  run (mkSys (new_chamber k) None ths ((name, v, d) :: rest) lg false)
      [Spawn; Run (List.length ths); Run (List.length ths); Run (List.length ths)]
  = Some (mkSys (new_chamber k) None
            (ths ++ [served_thread (List.length ths) (name, v, d)])
            rest (lg ++ served_events (name, v, d)) false).
Proof.
  unfold served_thread, served_events, new_chamber.
  cbn [run exec pending threads chamber lock log finished].
  generalize (Z.of_nat (List.length ths) + 1). intros idx.
  rewrite nth_error_last. destruct v.
  all: cbn.
  all: rewrite update_nth_last, nth_error_last.
  all: cbn.
  all: rewrite remove_single.
  all: cbn.
  all: rewrite update_nth_last, nth_error_last.
  all: cbn.
  all: rewrite update_nth_last.
  all: rewrite <- !app_assoc.
  all: reflexivity.
Qed.

Lemma serve_all (k : Z) (items : list Item) :
  forall ths lg,
    run (mkSys (new_chamber k) None ths items lg false)
        (serve_in_turn (List.length ths) (List.length items))
    = Some (mkSys (new_chamber k) None
              (ths ++ served_threads (List.length ths) items)
              [] (lg ++ flat_map served_events items) false).
Proof.
  induction items as [|[[name v] d] rest IH]; intros ths lg.
  - simpl. now rewrite !app_nil_r.
  - cbn [List.length serve_in_turn]. rewrite run_app, serve_one.
    replace (S (List.length ths))
      with (List.length (ths ++ [served_thread (List.length ths) (name, v, d)]))
      by (rewrite length_app; simpl; lia).
    rewrite IH. rewrite length_app. cbn [List.length served_threads flat_map].
    replace (List.length ths + 1)%nat with (S (List.length ths)) by lia.
    now rewrite <- !app_assoc.
Qed.

Lemma served_threads_done (items : list Item) :
  forall n, forallb (fun th => terminated (tpc th)) (served_threads n items) = true.
Proof.
  induction items as [|[[name v] d] rest IH]; intros n; simpl; auto.
Qed.

(** X12. For every meeting list and every K, the schedule in which each
    visitor is started, registers, enters and leaves before the next one is
    started runs to the end: every visitor logs ARRIVED, then ENTERED with
    count 1 (or STARTED), then LEFT with count 0 (or ENDED), in file order,
    and "Simulation finished." closes the log. *)
Theorem uncontended_run_completes (k : Z) (items : list Item) :
  run (init k items) (serve_in_turn 0 (List.length items) ++ [Finish])
  = Some (mkSys (new_chamber k) None (served_threads 0 items) []
            (flat_map served_events items ++ [FINISHED]) true).
Proof.
  rewrite run_app. unfold init.
  pose proof (serve_all k items [] []) as H. cbn [List.length app] in H.
  rewrite H. cbn [run exec pending].
  cbn [threads finished negb andb chamber lock log].
  now rewrite served_threads_done.
Qed.

(** ** More on the meeting file *)

Lemma read_lines_acc (lines : list string) (items : list Item) :
  read_lines lines items
  = match read_lines lines [] with
    | inl e => inl e
    | inr b => inr (items ++ b)
    end.
Proof.
  revert items. induction lines as [|ln lines IH]; intros items; simpl.
  - now rewrite app_nil_r.
  - destruct (parse_line ln) as [|it|e]; auto.
    rewrite (IH (items ++ [it])), (IH [it]).
    destruct (read_lines lines []); [reflexivity|]. now rewrite <- app_assoc.
Qed.

(** X13. Reading two files one after the other is reading their
    concatenation: the first exception met, in file order, is the one raised;
    without exception the list read is the two lists, in order. *)
Theorem read_meeting_info_app (l1 l2 : list string) :
  read_meeting_info (l1 ++ l2)
  = match read_meeting_info l1 with
    | inl e => inl e
    | inr a =>
        match read_meeting_info l2 with
        | inl e => inl e
        | inr b => inr (a ++ b)
        end
    end.
Proof.
  unfold read_meeting_info. rewrite read_lines_app.
  destruct (read_lines l1 []) as [e|a]; [reflexivity|].
  apply read_lines_acc.
Qed.

Lemma list_ascii_snoc (s : string) (c : ascii) :
  list_ascii_of_string (s ++ String c EmptyString)
  = list_ascii_of_string s ++ [c].
Proof. induction s as [|a s IH]; simpl; [reflexivity | now rewrite IH]. Qed.

Lemma split_ws_no_space (s cur t : string) :
  (forall c, In c (list_ascii_of_string cur) -> is_space c = false) ->
  In t (split_ws s cur) ->
  forall c, In c (list_ascii_of_string t) -> is_space c = false.
Proof.
  revert cur. induction s as [|a r IH]; simpl; intros cur Hcur.
  - destruct cur; simpl; [tauto|]. intros [<-|[]]. exact Hcur.
  - destruct (is_space a) eqn:Sp.
    + destruct cur.
      * apply IH. intros c [].
      * intros [<-|H]; [exact Hcur|]. revert H. apply IH. intros c [].
    + apply IH. intros c Hc. rewrite list_ascii_snoc in Hc.
      apply in_app_iff in Hc. destruct Hc as [Hc|[<-|[]]]; auto.
Qed.

Lemma parse_line_name (ln : string) (name : string) (v : vtype) (d : Q) :
  parse_line ln = Parsed (name, v, d) ->
  exists tok rest, split (strip ln) = name :: tok :: rest.
Proof.
  unfold parse_line.
  destruct (String.eqb (strip ln) ""); [discriminate|].
  destruct (startswith_hash (strip ln)); [discriminate|].
  destruct (split (strip ln)) as [|n [|tok rest]]; try discriminate.
  destruct (vtype_of_string (upper tok)).
  - intros [= -> _ _]. eauto.
  - destruct (last_char (upper tok)); [|discriminate].
    destruct (vtype_of_string _); [|discriminate].
    intros [= -> _ _]. eauto.
Qed.

Lemma read_lines_origin (lines : list string) :
  forall acc res,
    read_lines lines acc = inr res ->
    (List.length res <= List.length acc + List.length lines)%nat
    /\ forall it, In it res ->
         In it acc \/ exists ln, In ln lines /\ parse_line ln = Parsed it.
Proof.
  induction lines as [|ln lines IH]; simpl; intros acc res.
  - intros [= <-]. split; [lia | auto].
  - destruct (parse_line ln) as [|it0|e] eqn:P; [| |discriminate]; intros H;
      destruct (IH _ _ H) as [Hlen Hin].
    + split; [lia|]. intros it Hit. destruct (Hin it Hit) as [|(l & Hl & Pl)]; eauto.
    + rewrite length_app in Hlen. simpl in Hlen. split; [lia|].
      intros it Hit. destruct (Hin it Hit) as [Hacc|(l & Hl & Pl)]; eauto.
      apply in_app_iff in Hacc. destruct Hacc as [|[<-|[]]]; eauto.
Qed.

(** X14. When [read_meeting_info] returns, it returns at most one visitor per
    line, every visitor comes from a line of the file, and every name is a
    non-empty string without whitespace. *)
Theorem visitors_come_from_lines (lines : list string) (items : list Item) :
  read_meeting_info lines = inr items ->
  (List.length items <= List.length lines)%nat
  /\ forall name v d, In (name, v, d) items ->
       (exists ln, In ln lines /\ parse_line ln = Parsed (name, v, d))
       /\ name <> EmptyString
       /\ (forall c, In c (list_ascii_of_string name) -> is_space c = false).
Proof.
  intros H. destruct (read_lines_origin _ _ _ H) as [Hlen Hin].
  split; [simpl in Hlen; lia|]. intros name v d Hit.
  destruct (Hin _ Hit) as [[]|(ln & Hl & P)].
  destruct (parse_line_name _ _ _ _ P) as (tok & rest & Hs).
  assert (In name (split_ws (strip ln) EmptyString)) as Hn
      by (fold (split (strip ln)); rewrite Hs; now left).
  split; [eauto|]. split.
  - apply (split_ws_nonempty _ _ _ Hn).
  - apply (split_ws_no_space (strip ln) EmptyString name); [|exact Hn].
    intros c Hc. destruct Hc.
Qed.

Lemma visitors_come_from_lines_witness :
  (List.length [("A1", Admin, default_delay); ("S1", Student, default_delay)]
   <= List.length ["A1 a"; "Bob"; "S1 s"])%nat.
Proof.
  apply (visitors_come_from_lines ["A1 a"; "Bob"; "S1 s"]
           [("A1", Admin, default_delay); ("S1", Student, default_delay)]
           eq_refl).
Defined.

Lemma all_space_cons (c : ascii) (s : string) :
  all_space (String c s) -> is_space c = true /\ all_space s.
Proof.
  unfold all_space. simpl. intros H. split; [apply H; now left|].
  intros x Hx. apply H. now right.
Qed.

Lemma lstrip_all_space (s : string) : all_space s -> lstrip s = EmptyString.
Proof.
  induction s as [|c r IH]; [reflexivity|]. intros H.
  apply all_space_cons in H. destruct H as [Hc Hr]. simpl. rewrite Hc. auto.
Qed.

Lemma rstrip_all_space (s : string) : all_space s -> rstrip s = EmptyString.
Proof.
  induction s as [|c r IH]; [reflexivity|]. intros H.
  apply all_space_cons in H. destruct H as [Hc Hr]. simpl.
  now rewrite (IH Hr), Hc.
Qed.

Lemma lstrip_app_space (pre s : string) :
  all_space pre -> lstrip (pre ++ s) = lstrip s.
Proof.
  induction pre as [|c r IH]; [reflexivity|]. intros H.
  apply all_space_cons in H. destruct H as [Hc Hr]. simpl. rewrite Hc. auto.
Qed.

Lemma rstrip_app_space (s post : string) :
  all_space post -> rstrip (s ++ post) = rstrip s.
Proof.
  intros H. induction s as [|c r IH]; simpl.
  - now apply rstrip_all_space.
  - now rewrite IH.
Qed.

Lemma strip_app_space (s post : string) :
  all_space post -> strip (s ++ post) = strip s.
Proof.
  intros H. unfold strip. induction s as [|c r IH]; simpl.
  - now rewrite (lstrip_all_space post H).
  - destruct (is_space c); [exact IH|].
    change (String c (r ++ post)) with (String c r ++ post)%string.
    now apply rstrip_app_space.
Qed.

Lemma strip_surrounded (pre s post : string) :
  all_space pre -> all_space post -> strip (pre ++ s ++ post) = strip s.
Proof.
  intros Hpre Hpost. unfold strip. rewrite lstrip_app_space by assumption.
  now apply strip_app_space.
Qed.

(** X15. Whitespace around a line does not matter: a line read with leading
    blanks or with its line terminator is parsed like the bare line, the
    message of the exception included. *)
Theorem surrounding_whitespace_ignored (pre ln post : string) :
  all_space pre -> all_space post ->
  parse_line (pre ++ ln ++ post) = parse_line ln.
Proof.
  intros Hpre Hpost. unfold parse_line.
  now rewrite (strip_surrounded pre ln post Hpre Hpost).
Qed.

Lemma surrounding_whitespace_ignored_witness :
  parse_line ("  " ++ "Ann o" ++ String (ascii_of_nat 10) EmptyString)
  = parse_line "Ann o".
Proof.
  apply (surrounding_whitespace_ignored "  " "Ann o"
           (String (ascii_of_nat 10) EmptyString)).
  - intros c Hc. simpl in Hc. destruct Hc as [<-|[<-|[]]]; reflexivity.
  - intros c Hc. simpl in Hc. destruct Hc as [<-|[]]. reflexivity.
Defined.

(** ** The ledger holds each waiting visitor once *)

Lemma count_type_total (q : list Entry) :
  count_type Student q + count_type Admin q + count_type Online q
  = Z.of_nat (List.length q).
Proof.
  induction q as [|[[idx name] v] r IH].
  - reflexivity.
  - rewrite !count_type_cons. cbn [entry_vtype snd List.length].
    destruct v; cbn [vtype_eqb]; lia.
Qed.

(** X16. At any moment of a run no two entries of the ledger carry the same
    index, the three waiting counters are non-negative and they add up to the
    length of the ledger. *)
Theorem ledger_entries_distinct (k : Z) (items : list Item)
  (tr : list Action) (s : Sys) :
  run (init k items) tr = Some s ->
  NoDup (map entry_index (entry_order (chamber s)))
  /\ (forall t, 0 <= waiting_get (waiting (chamber s)) t)
  /\ waiting_get (waiting (chamber s)) Student
     + waiting_get (waiting (chamber s)) Admin
     + waiting_get (waiting (chamber s)) Online
     = Z.of_nat (List.length (entry_order (chamber s))).
Proof.
  intros Hrun. destruct (LedgerInv_run _ _ _ _ Hrun) as [Hnd _ Hperm Hw].
  split; [|split].
  - eapply Permutation_NoDup.
    + apply Permutation_map, Permutation_sym, Hperm.
    + now apply NoDup_waiting_list.
  - intros t. rewrite Hw. apply count_type_nonneg.
  - rewrite !Hw. apply count_type_total.
Qed.

Lemma ledger_entries_distinct_witness :
  NoDup (map entry_index (entry_order (chamber one_inside_one_waiting))).
Proof.
  apply (ledger_entries_distinct 1 two_students_seq enter_one_after_the_other
           one_inside_one_waiting eq_refl).
Defined.

(** ** Every run is finite *)

Lemma steps_left_mid (l1 l2 : list Thread) (th : Thread) :
  list_sum (map (fun th => steps_left (tpc th)) (l1 ++ th :: l2))
  = (list_sum (map (fun th => steps_left (tpc th)) l1)
     + steps_left (tpc th)
     + list_sum (map (fun th => steps_left (tpc th)) l2))%nat.
Proof. rewrite map_app, list_sum_app. simpl. lia. Qed.

Lemma budget_step (s : Sys) (a : Action) (s' : Sys) :
  exec s a = Some s' -> budget s = S (budget s').
Proof.
  intros E. apply exec_Step in E. unfold budget.
  destruct E; sys_simpl; rewrite ?steps_left_mid;
    cbn [set_pc tpc steps_left List.length];
    try (rewrite H); try (destruct H as [-> | ->]); cbn [steps_left]; try lia.
  simpl. destruct f; lia.
Qed.

(** X17. No schedule runs for ever: a run of n visitors takes at most
    4 n + 1 steps, and exactly that many when it ends with "Simulation
    finished."; every step uses up one unit of the budget of the state. *)
Theorem runs_are_bounded (k : Z) (items : list Item) (tr : list Action)
  (s : Sys) :
  run (init k items) tr = Some s ->
  (List.length tr + budget s = 4 * List.length items + 1)%nat
  /\ (List.length tr <= 4 * List.length items + 1)%nat
  /\ (finished s = true -> List.length tr = 4 * List.length items + 1)%nat.
Proof.
  intros Hrun.
  assert (forall tr s0 s1, run s0 tr = Some s1 ->
                           (List.length tr + budget s1 = budget s0)%nat) as Hgen.
  { clear. induction tr as [|a tr IH]; simpl; intros s0 s1.
    - now intros [= <-].
    - destruct (exec s0 a) as [s2|] eqn:E; [|discriminate]. intros H.
      rewrite (budget_step _ _ _ E). specialize (IH _ _ H). lia. }
  pose proof (Hgen _ _ _ Hrun) as Hb.
  assert (budget (init k items) = 4 * List.length items + 1)%nat as Hi
      by (unfold budget; simpl; lia).
  rewrite Hi in Hb. split; [exact Hb|]. split; [lia|].
  intros Hf.
  destruct (finished_means_done _ _ _ _ Hrun) as [_ Hfin].
  destruct (Hfin Hf) as [Hp Hd].
  assert (budget s = 0)%nat as Hz; [|lia].
  unfold budget. rewrite Hp, Hf. simpl.
  assert (forall l, (forall th, In th l -> tpc th = Done) ->
                    list_sum (map (fun th => steps_left (tpc th)) l) = 0%nat) as Hsum.
  { clear. induction l as [|a l IH]; [reflexivity|]. intros H. simpl.
    rewrite (H a (or_introl eq_refl)), IH; [reflexivity|].
    intros th Hin. apply H. now right. }
  rewrite (Hsum _ Hd). reflexivity.
Qed.

Lemma runs_are_bounded_witness :
  List.length students_served = (4 * List.length two_students_seq + 1)%nat.
Proof.
  apply (runs_are_bounded 2 two_students_seq students_served
           after_students_served eq_refl).
  reflexivity.
Defined.
